(** * WitnessSizedTypeInfo: IR generation for non-fixed-layout types

    A shallow embedding of [lib/IRGen/NonFixedTypeInfo.h].  The C++ methods
    of [WitnessSizedTypeInfo] run inside the compiler and append LLVM
    instructions to the function being generated ([IRGenFunction]); they are
    modelled as functions in a small state monad over that function.  The
    instructions they emit are then given a runtime meaning by an
    interpreter, in which the type descriptors (value witness tables) and the
    runtime's buffer and box witnesses live. *)

From Stdlib Require Import ZArith Lia List Bool String.
From stdpp Require Import base gmap.
Import ListNotations.

Open Scope Z_scope.

(* ------------------------------------------------------------------ *)
(** ** Compile-time data *)

(** A canonical (fully instantiated) Swift type, as an opaque identifier. *)
Definition CanType := nat.

(** SSA value names ([llvm::Value *]). *)
Definition ValueId := nat.

(** The LLVM types the code refers to. *)
Inductive IRType :=
| TFixedBuffer (bytes : Z)       (* the module's fixed-size value buffer *)
| TStorage (id : nat)            (* the storage type of a TypeInfo *)
| TPtr (t : IRType).

(** Fields of a value witness table read by the [emitLoadOf*] helpers. *)
Inductive VWField := FSize | FAlignmentMask | FStride | FIsInline.

(** Emitted instructions.  Each defines at most one SSA value except
    [IAllocBox], which defines the box and the payload address. *)
Inductive Instr :=
| IAlloca (dst : ValueId) (ty : IRType) (align : Z)
| IMetadataRef (dst : ValueId) (T : CanType)
| IVWTRef (dst : ValueId) (metadata : ValueId)
| ILoadField (dst : ValueId) (wtable : ValueId) (f : VWField)
| IAllocateBuffer (dst : ValueId) (metadata buffer : ValueId)
| IDeallocateBuffer (metadata buffer : ValueId)
| IAllocBox (box addr : ValueId) (metadata : ValueId)
| IBitCast (dst : ValueId) (src : ValueId) (ty : IRType).

(** The parts of [IRGenModule] the header uses: the fixed buffer's type and
    its alignment, both module-wide (one value per target). *)
Record IRGenModule := {
  FixedBufferSize : Z;
  FixedBufferAlignment : Z
}.

(** Modelled from the spec: [IRGenModule::getFixedBufferTy] and
    [getFixedBufferAlignment], which are not in the excerpt; the spec calls
    them a single architecture-defined constant pair, not per type. *)
Definition getFixedBufferTy (IGM : IRGenModule) : IRType :=
  TFixedBuffer (FixedBufferSize IGM).
Definition getFixedBufferAlignment (IGM : IRGenModule) : Z :=
  FixedBufferAlignment IGM.

(** [IRGenFunction]: the module, the next fresh SSA name and the
    instructions emitted so far, in program order. *)
Record IRGenFunction := {
  IGM : IRGenModule;
  nextValue : ValueId;
  insts : list Instr
}.

(** [llvm::Value *] is an SSA name; [Address] pairs it with an alignment. *)
Record Address := { addrPtr : ValueId; addrAlign : Z }.

(** [OwnedAddress]: payload address and the owning box. *)
Record OwnedAddress := { ownedAddr : Address; ownedBox : ValueId }.

(** [ContainedAddress]: the fixed buffer and the payload address in it. *)
Record ContainedAddress := { containerBuf : Address; containedAddr : Address }.

(** The fields of the [TypeInfo] base the header reads. *)
Record TypeInfo := {
  StorageType : IRType;
  BestKnownAlignment : Z
}.

(* ------------------------------------------------------------------ *)
(** ** The IR builder monad *)

Definition IRGen (A : Type) := IRGenFunction -> A * IRGenFunction.

Definition ret {A} (a : A) : IRGen A := fun s => (a, s).
Definition bind {A B} (m : IRGen A) (k : A -> IRGen B) : IRGen B :=
  fun s => let '(a, s') := m s in k a s'.

Notation "x <-- m ;; k" := (bind m (fun x => k))
  (at level 100, m at next level, right associativity).

(** A fresh SSA name. *)
Definition fresh : IRGen ValueId :=
  fun s => (nextValue s,
            {| IGM := IGM s; nextValue := S (nextValue s); insts := insts s |}).

(** Append one instruction at the insertion point. *)
Definition emit (i : Instr) : IRGen unit :=
  fun s => (tt, {| IGM := IGM s; nextValue := nextValue s; insts := insts s ++ [i] |}).

Definition getIGM : IRGen IRGenModule := fun s => (IGM s, s).

(** How a compile-time operation ends: it returns, it stops the compiler
    with a diagnostic, or it has undefined behaviour. *)
Inductive Outcome (A : Type) :=
| Returns (a : A)
| Fatal (msg : string)
| Undefined.
Arguments Returns {A}.
Arguments Fatal {A}.
Arguments Undefined {A}.

(** [llvm_unreachable(msg)] (llvm/Support/ErrorHandling.h): in a build with
    assertions it reports [msg] and aborts the compiler; in an [NDEBUG]
    build it expands to [__builtin_unreachable()], so reaching it is
    undefined behaviour. *)
Definition llvm_unreachable {A} (NDEBUG : bool) (msg : string) : Outcome A :=
  if NDEBUG then Undefined else Fatal msg.

(* ------------------------------------------------------------------ *)
(** ** IR emission helpers used by the header

    These live in GenOpaque.cpp and IRGenFunction.cpp, outside the excerpt.
    Each appends the one runtime operation its name describes and returns the
    SSA value it defines. *)

Definition emitTypeMetadataRef (T : CanType) : IRGen ValueId :=
  v <-- fresh ;; _ <-- emit (IMetadataRef v T) ;; ret v.

Definition emitValueWitnessTableRefForMetadata (metadata : ValueId) : IRGen ValueId :=
  v <-- fresh ;; _ <-- emit (IVWTRef v metadata) ;; ret v.

Definition emitLoadOfField (f : VWField) (wtable : ValueId) : IRGen ValueId :=
  v <-- fresh ;; _ <-- emit (ILoadField v wtable f) ;; ret v.

Definition emitLoadOfSize := emitLoadOfField FSize.
Definition emitLoadOfAlignmentMask := emitLoadOfField FAlignmentMask.
Definition emitLoadOfStride := emitLoadOfField FStride.
Definition emitLoadOfIsInline := emitLoadOfField FIsInline.

Definition emitAllocateBufferCall (metadata : ValueId) (buffer : Address)
  : IRGen ValueId :=
  v <-- fresh ;; _ <-- emit (IAllocateBuffer v metadata (addrPtr buffer)) ;; ret v.

Definition emitDeallocateBufferCall (metadata : ValueId) (buffer : Address)
  : IRGen unit :=
  emit (IDeallocateBuffer metadata (addrPtr buffer)).

(** [IGF.emitAllocBoxCall(metadata, box, address)]: both out-parameters. *)
Definition emitAllocBoxCall (metadata : ValueId) : IRGen (ValueId * ValueId) :=
  box <-- fresh ;; address <-- fresh ;;
  _ <-- emit (IAllocBox box address metadata) ;; ret (box, address).

Definition createAlloca (ty : IRType) (align : Z) (name : string) : IRGen Address :=
  v <-- fresh ;; _ <-- emit (IAlloca v ty align) ;;
  ret {| addrPtr := v; addrAlign := align |}.

Definition CreateBitCast (v : ValueId) (ty : IRType) : IRGen ValueId :=
  r <-- fresh ;; _ <-- emit (IBitCast r v ty) ;; ret r.

(* ------------------------------------------------------------------ *)
(** ** [WitnessSizedTypeInfo]

    [ti] is [*this]. *)

Section WitnessSizedTypeInfo.
Variable ti : TypeInfo.

(** [TypeInfo::getAddressForPointer]: the best known alignment of the type. *)
Definition getAddressForPointer (v : ValueId) : Address :=
  {| addrPtr := v; addrAlign := BestKnownAlignment ti |}.

Definition getAsBitCastAddress (addr : ValueId) : IRGen Address :=
  addr' <-- CreateBitCast addr (TPtr (StorageType ti)) ;;
  ret (getAddressForPointer addr').

Definition isFixed : bool := false.

Definition allocateBox (T : CanType) (name : string) : IRGen OwnedAddress :=
  metadata <-- emitTypeMetadataRef T ;;
  ba <-- emitAllocBoxCall metadata ;;
  let '(box, address) := ba in
  a <-- getAsBitCastAddress address ;;
  ret {| ownedAddr := a; ownedBox := box |}.

Definition allocateStack (T : CanType) (name : string) : IRGen ContainedAddress :=
  igm <-- getIGM ;;
  buffer <-- createAlloca (getFixedBufferTy igm) (getFixedBufferAlignment igm) name ;;
  metadata <-- emitTypeMetadataRef T ;;
  address <-- emitAllocateBufferCall metadata buffer ;;
  a <-- getAsBitCastAddress address ;;
  ret {| containerBuf := buffer; containedAddr := a |}.

Definition deallocateStack (buffer : Address) (T : CanType) : IRGen unit :=
  metadata <-- emitTypeMetadataRef T ;;
  emitDeallocateBufferCall metadata buffer.

Definition getValueWitnessTable (T : CanType) : IRGen ValueId :=
  metadata <-- emitTypeMetadataRef T ;;
  emitValueWitnessTableRefForMetadata metadata.

Definition getSizeAndAlignmentMask (T : CanType) : IRGen (ValueId * ValueId) :=
  wtable <-- getValueWitnessTable T ;;
  size <-- emitLoadOfSize wtable ;;
  align <-- emitLoadOfAlignmentMask wtable ;;
  ret (size, align).

Definition getSizeAndAlignmentMaskAndStride (T : CanType)
  : IRGen (ValueId * ValueId * ValueId) :=
  wtable <-- getValueWitnessTable T ;;
  size <-- emitLoadOfSize wtable ;;
  align <-- emitLoadOfAlignmentMask wtable ;;
  stride <-- emitLoadOfStride wtable ;;
  ret (size, align, stride).

Definition getSize (T : CanType) : IRGen ValueId :=
  wtable <-- getValueWitnessTable T ;; emitLoadOfSize wtable.

Definition getAlignmentMask (T : CanType) : IRGen ValueId :=
  wtable <-- getValueWitnessTable T ;; emitLoadOfAlignmentMask wtable.

Definition getStride (T : CanType) : IRGen ValueId :=
  wtable <-- getValueWitnessTable T ;; emitLoadOfStride wtable.

Definition isDynamicallyPackedInline (T : CanType) : IRGen ValueId :=
  wtable <-- getValueWitnessTable T ;; emitLoadOfIsInline wtable.

(** FIXME in the source: dynamic extra inhabitant lookup. *)
Definition mayHaveExtraInhabitants (IGM : IRGenModule) : bool := false.

Definition getExtraInhabitantIndex (NDEBUG : bool) (src : Address) (T : CanType)
  : IRGen (Outcome ValueId) :=
  ret (llvm_unreachable NDEBUG "dynamic extra inhabitants not supported").

Definition storeExtraInhabitant (NDEBUG : bool) (index : ValueId) (dest : Address)
  (T : CanType) : IRGen (Outcome unit) :=
  ret (llvm_unreachable NDEBUG "dynamic extra inhabitants not supported").

(** [nullptr] is [None]: no compile-time constant. *)
Definition getStaticSize (IGM : IRGenModule) : option Z := None.
Definition getStaticAlignmentMask (IGM : IRGenModule) : option Z := None.
Definition getStaticStride (IGM : IRGenModule) : option Z := None.

End WitnessSizedTypeInfo.

(* ------------------------------------------------------------------ *)
(** ** Runtime meaning of the emitted code *)

(** A type descriptor: the layout fields of a value witness table. *)
Record Descriptor := {
  size : Z;
  alignmentMask : Z;
  stride : Z;
  isInline : bool
}.

Definition loadField (f : VWField) (d : Descriptor) : Z :=
  match f with
  | FSize => size d
  | FAlignmentMask => alignmentMask d
  | FStride => stride d
  | FIsInline => if isInline d then 1 else 0
  end.

(** Runtime values held by SSA names: machine words (also addresses),
    type metadata, and value witness tables, each naming its type. *)
Inductive RVal := RWord (z : Z) | RMeta (T : CanType) | RWTable (T : CanType).

(** The machine: SSA registers, word memory, live heap cells (base to
    size), the stack pointer (the stack grows down from 0) and the heap
    break (the heap grows up from a positive address). *)
Record RState := {
  regs : gmap ValueId RVal;
  mem : gmap Z Z;
  heap : gmap Z Z;
  sp : Z;
  brk : Z
}.

Definition setReg (v : ValueId) (x : RVal) (st : RState) : RState :=
  {| regs := <[v := x]> (regs st); mem := mem st; heap := heap st;
     sp := sp st; brk := brk st |}.

Definition getMeta (st : RState) (v : ValueId) : option CanType :=
  match regs st !! v with Some (RMeta T) => Some T | _ => None end.
Definition getWTable (st : RState) (v : ValueId) : option CanType :=
  match regs st !! v with Some (RWTable T) => Some T | _ => None end.
Definition getWord (st : RState) (v : ValueId) : option Z :=
  match regs st !! v with Some (RWord z) => Some z | _ => None end.

Notation "'let?' x := m 'in' k" :=
  (match m with Some x => k | None => None end)
  (at level 200, x ident, m at level 200, k at level 200).

Section Runtime.
(** The target the module was compiled for and the runtime's descriptors. *)
Variable igm : IRGenModule.
Variable desc : CanType -> Descriptor.

(** Modelled from the spec: the runtime heap allocator (swift_slowAlloc),
    a bump allocator; every cell has at least one byte. *)
Definition heapAlloc (n : Z) (st : RState) : Z * RState :=
  let h := brk st in
  (h, {| regs := regs st; mem := mem st; heap := <[h := n]> (heap st);
         sp := sp st; brk := h + Z.max n 1 |}).

Definition heapFree (h : Z) (st : RState) : option RState :=
  match heap st !! h with
  | Some _ => Some {| regs := regs st; mem := mem st; heap := delete h (heap st);
                      sp := sp st; brk := brk st |}
  | None => None
  end.

(** Modelled from the spec: the decision of the buffer witnesses, a pure
    function of the descriptor's size and alignment against the fixed
    buffer's capacity and alignment. *)
Definition fitsInFixedBuffer (d : Descriptor) : bool :=
  (size d <=? FixedBufferSize igm) && (alignmentMask d + 1 <=? FixedBufferAlignment igm).

(** Modelled from the spec: the allocateBuffer value witness.  Inline: the
    payload is the buffer itself.  Otherwise a heap cell is allocated, its
    address stored in the buffer's first word, and returned. *)
Definition allocateBufferWitness (T : CanType) (b : Z) (st : RState) : Z * RState :=
  if fitsInFixedBuffer (desc T) then (b, st)
  else let '(h, st') := heapAlloc (size (desc T)) st in
       (h, {| regs := regs st'; mem := <[b := h]> (mem st'); heap := heap st';
              sp := sp st'; brk := brk st' |}).

(** Modelled from the spec: the deallocateBuffer value witness, making the
    same decision again from the descriptor. *)
Definition deallocateBufferWitness (T : CanType) (b : Z) (st : RState) : option RState :=
  if fitsInFixedBuffer (desc T) then Some st
  else match mem st !! b with
       | Some h => heapFree h st
       | None => None
       end.

(** Modelled from the spec: swift_allocBox; a heap object with a header of
    [HeapObjectHeaderSize] bytes followed by the payload, whose size the
    runtime reads from the descriptor. *)
Definition HeapObjectHeaderSize : Z := 16.

Definition allocBoxRuntime (T : CanType) (st : RState) : Z * Z * RState :=
  let '(h, st') := heapAlloc (HeapObjectHeaderSize + size (desc T)) st in
  (h, h + HeapObjectHeaderSize, st').

(** One instruction; [None] for a trap or ill-formed code. *)
Definition execInstr (i : Instr) (st : RState) : option RState :=
  match i with
  | IAlloca v (TFixedBuffer n) a =>
      if a <=? 0 then None else
      let b := ((sp st - n) / a) * a in
      Some (setReg v (RWord b)
              {| regs := regs st; mem := mem st; heap := heap st;
                 sp := b; brk := brk st |})
  | IAlloca _ _ _ => None
  | IMetadataRef v T => Some (setReg v (RMeta T) st)
  | IVWTRef v m =>
      let? T := getMeta st m in Some (setReg v (RWTable T) st)
  | ILoadField v w f =>
      let? T := getWTable st w in Some (setReg v (RWord (loadField f (desc T))) st)
  | IAllocateBuffer v m buf =>
      let? T := getMeta st m in let? b := getWord st buf in
      let '(p, st') := allocateBufferWitness T b st in
      Some (setReg v (RWord p) st')
  | IDeallocateBuffer m buf =>
      let? T := getMeta st m in let? b := getWord st buf in
      deallocateBufferWitness T b st
  | IAllocBox box addr m =>
      let? T := getMeta st m in
      let '(bx, p, st') := allocBoxRuntime T st in
      Some (setReg addr (RWord p) (setReg box (RWord bx) st'))
  | IBitCast v src _ =>
      let? x := regs st !! src in Some (setReg v x st)
  end.

Fixpoint exec (code : list Instr) (st : RState) : option RState :=
  match code with
  | [] => Some st
  | i :: code' => let? st' := execInstr i st in exec code' st'
  end.

End Runtime.

(** The instructions an emitter appends when run on [s]. *)
Definition newCode {A} (m : IRGen A) (s : IRGenFunction) : list Instr :=
  skipn (length (insts s)) (insts (snd (m s))).

(** Instructions that fetch the descriptor: metadata and witness table. *)
Definition fetchesDescriptor (i : Instr) : bool :=
  match i with IMetadataRef _ _ | IVWTRef _ _ => true | _ => false end.

(** Instructions that read a layout field. *)
Definition readsLayoutField (i : Instr) : bool :=
  match i with ILoadField _ _ _ => true | _ => false end.

(** Modelled from the spec: a descriptor as the runtime lays it out.  The
    alignment [alignmentMask + 1] is a power of two and the stride is the
    size rounded up to the alignment. *)
Definition wellFormedDescriptor (d : Descriptor) : Prop :=
  0 <= size d /\
  (exists k, 0 <= k /\ alignmentMask d = 2 ^ k - 1) /\
  stride d = (size d + alignmentMask d) / (alignmentMask d + 1) * (alignmentMask d + 1).

(* ------------------------------------------------------------------ *)
(** ** SemaDecl: scoped name tables for declarations

    A shallow embedding of [lib/Parse/SemaDecl.cpp].  Identifiers are
    strings and source locations are numbers.  [ValueDecl]s are passed by
    pointer but never changed here; they are records whose [vdId] stands for
    the pointer.  [TypeAliasDecl]s are changed in place through pointers
    shared by the type table, the [UnresolvedTypes] map and the
    [UnresolvedTypeList], so they live in a store ([TypeAliases]) indexed
    by pointer. *)

Module Sema.

Definition Identifier := string.
Definition SMLoc := nat.
(** A non-null [Type]. *)
Definition TypeRef := nat.
(** A [TypeAliasDecl *]. *)
Definition TypeAliasPtr := nat.

Record ValueDecl := {
  vdId : nat;
  vdName : Identifier;
  vdInit : bool;                 (* [Init] is non-null *)
  vdInfixPrecedence : Z;         (* [Attrs.InfixPrecedence] *)
  vdLoc : SMLoc                  (* [getLocStart()] *)
}.

Record TypeAliasDecl := {
  TypeAliasLoc : SMLoc;
  taName : Identifier;
  UnderlyingTy : option TypeRef  (* [None] is the null [Type()] *)
}.

Inductive DiagKind := DError | DWarning | DNote.
Record Diag := { diagKind : DiagKind; diagLoc : SMLoc; diagMsg : string }.

(** [llvm::ScopedHashTable<Identifier, V>].  Each key has a chain of
    entries, most recent first, each tagged with the scope it belongs to;
    [htCurScope] is the innermost active scope and [htParents] its parents,
    innermost first.  The parser always has a scope active. *)
Record ScopedHashTable (V : Type) := {
  TopLevelMap : gmap Identifier (list (nat * V));
  htCurScope : nat;
  htParents : list nat
}.
Arguments TopLevelMap {V}.
Arguments htCurScope {V}.
Arguments htParents {V}.

(** [begin(Key)]: the most recent entry for the key, if any. *)
Definition htBegin {V} (ht : ScopedHashTable V) (k : Identifier) : option V :=
  match TopLevelMap ht !! k with
  | Some ((_, v) :: _) => Some v
  | _ => None
  end.

(** [lookup(Key)]: that entry, or a default-constructed [V] ([None]). *)
Definition htLookup {V} (ht : ScopedHashTable V) (k : Identifier) : option V :=
  htBegin ht k.

(** [insertIntoScope(S, Key, Val)]: the new entry heads the key's chain. *)
Definition htInsertIntoScope {V} (ht : ScopedHashTable V) (sc : nat)
    (k : Identifier) (v : V) : ScopedHashTable V :=
  {| TopLevelMap := <[k := (sc, v) :: default [] (TopLevelMap ht !! k)]> (TopLevelMap ht);
     htCurScope := htCurScope ht; htParents := htParents ht |}.

(** [insert(Key, Val)]: into the current scope. *)
Definition htInsert {V} (ht : ScopedHashTable V) (k : Identifier) (v : V)
  : ScopedHashTable V :=
  htInsertIntoScope ht (htCurScope ht) k v.

(** Walking [getParentScope()] from the current scope to the outermost. *)
Definition htOutermostScope {V} (ht : ScopedHashTable V) : nat :=
  default (htCurScope ht) (last (htParents ht)).

(** [ValueScopeEntry] and [TypeScopeEntry] pair a scope depth with a decl. *)
Record SemaDecl := {
  ValueScopeHT : ScopedHashTable (nat * ValueDecl);
  TypeScopeHT : ScopedHashTable (nat * TypeAliasPtr);
  CurDepth : nat;                            (* [CurScope->getDepth()] *)
  UnresolvedTypes : gmap Identifier TypeAliasPtr;
  UnresolvedTypeList : list TypeAliasPtr;
  TypeAliases : gmap TypeAliasPtr TypeAliasDecl;
  NextTypeAlias : TypeAliasPtr;              (* the ASTContext allocator *)
  Diags : list Diag
}.

Definition setValueHT (S : SemaDecl) ht : SemaDecl :=
  {| ValueScopeHT := ht; TypeScopeHT := TypeScopeHT S; CurDepth := CurDepth S;
     UnresolvedTypes := UnresolvedTypes S; UnresolvedTypeList := UnresolvedTypeList S;
     TypeAliases := TypeAliases S; NextTypeAlias := NextTypeAlias S; Diags := Diags S |}.

Definition diag (k : DiagKind) (loc : SMLoc) (msg : string) (S : SemaDecl) : SemaDecl :=
  {| ValueScopeHT := ValueScopeHT S; TypeScopeHT := TypeScopeHT S; CurDepth := CurDepth S;
     UnresolvedTypes := UnresolvedTypes S; UnresolvedTypeList := UnresolvedTypeList S;
     TypeAliases := TypeAliases S; NextTypeAlias := NextTypeAlias S;
     Diags := Diags S ++ [{| diagKind := k; diagLoc := loc; diagMsg := msg |}] |}.

Definition error := diag DError.
Definition warning := diag DWarning.
Definition note := diag DNote.

(** [LookupValueName]: a hit at depth 0 (top level) is ignored. *)
Definition LookupValueName (S : SemaDecl) (Name : Identifier) : option ValueDecl :=
  match htLookup (ValueScopeHT S) Name with
  | None => None                                   (* the default (0, null) *)
  | Some (depth, vd) => if Nat.eqb depth 0 then None else Some vd
  end.

(** [LookupTypeName]: a miss creates an unresolved [TypeAliasDecl], records
    it as unresolved and enters it, at depth 0, in the outermost scope. *)
Definition LookupTypeName (S : SemaDecl) (Name : Identifier) (Loc : SMLoc)
  : TypeAliasPtr * SemaDecl :=
  match htLookup (TypeScopeHT S) Name with
  | Some (_, TAD) => (TAD, S)
  | None =>
      let TAD := NextTypeAlias S in
      let ht := TypeScopeHT S in
      (TAD,
       {| ValueScopeHT := ValueScopeHT S;
          TypeScopeHT := htInsertIntoScope ht (htOutermostScope ht) Name (0%nat, TAD);
          CurDepth := CurDepth S;
          UnresolvedTypes := <[Name := TAD]> (UnresolvedTypes S);
          UnresolvedTypeList := UnresolvedTypeList S ++ [TAD];
          TypeAliases := <[TAD := {| TypeAliasLoc := Loc; taName := Name;
                                      UnderlyingTy := None |}]> (TypeAliases S);
          NextTypeAlias := Datatypes.S TAD;
          Diags := Diags S |})
  end.

(** [DiagnoseRedefinition]; its [assert(New != Prev)] is compiled out in
    release builds and not modelled. *)
Definition DiagnoseRedefinition (Prev New : ValueDecl) (SD : SemaDecl) : SemaDecl :=
  let SD := if vdInit New
            then error (vdLoc New) "definition conflicts with previous value" SD
            else error (vdLoc New) "declaration conflicts with previous value" SD in
  if vdInit Prev
  then note (vdLoc Prev) "previous definition here" SD
  else note (vdLoc Prev) "previous declaration here" SD.

(** [CheckValidOverload]: [true] (and two diagnostics) when the infix
    precedences differ. *)
Definition CheckValidOverload (D1 D2 : ValueDecl) (SD : SemaDecl) : bool * SemaDecl :=
  if negb (Z.eqb (vdInfixPrecedence D1) (vdInfixPrecedence D2)) then
    (true, note (vdLoc D2) "previous declaration here"
             (error (vdLoc D1) "infix precedence of functions in an overload set must match" SD))
  else (false, SD).

Definition AddToScope (S : SemaDecl) (D : ValueDecl) : SemaDecl :=
  let insertD S := setValueHT S (htInsert (ValueScopeHT S) (vdName D) (CurDepth S, D)) in
  match htBegin (ValueScopeHT S) (vdName D) with
  | Some (depth, PrevDecl) =>
      if Nat.eqb depth (CurDepth S) then
        if negb (Nat.eqb (CurDepth S) 0) then DiagnoseRedefinition PrevDecl D S
        else
          let '(bad, S') := CheckValidOverload D PrevDecl S in
          if bad then S' else insertD S'
      else insertD S
  | None => insertD S
  end.

(** [ActOnTypeAlias].  The type table only holds allocated decls; a
    dangling entry is not reachable and returns the state unchanged. *)
Definition ActOnTypeAlias (S : SemaDecl) (TypeAliasLoc0 : SMLoc) (Name : Identifier)
    (Ty : TypeRef) : TypeAliasPtr * SemaDecl :=
  let newDecl :=
      let New := NextTypeAlias S in
      (New,
       {| ValueScopeHT := ValueScopeHT S;
          TypeScopeHT := htInsert (TypeScopeHT S) Name (CurDepth S, New);
          CurDepth := CurDepth S;
          UnresolvedTypes := UnresolvedTypes S;
          UnresolvedTypeList := UnresolvedTypeList S;
          TypeAliases := <[New := {| TypeAliasLoc := TypeAliasLoc0; taName := Name;
                                      UnderlyingTy := Some Ty |}]> (TypeAliases S);
          NextTypeAlias := Datatypes.S New;
          Diags := Diags S |}) in
  match htLookup (TypeScopeHT S) Name with
  | None => newDecl
  | Some (depth, ExistingDecl) =>
      if negb (Nat.eqb depth (CurDepth S)) then newDecl else
      match TypeAliases S !! ExistingDecl with
      | None => (ExistingDecl, S)
      | Some ed =>
          match UnderlyingTy ed with
          | None =>
              (ExistingDecl,
               {| ValueScopeHT := ValueScopeHT S; TypeScopeHT := TypeScopeHT S;
                  CurDepth := CurDepth S;
                  UnresolvedTypes := delete Name (UnresolvedTypes S);
                  UnresolvedTypeList := UnresolvedTypeList S;
                  TypeAliases := <[ExistingDecl := {| TypeAliasLoc := TypeAliasLoc0;
                                                      taName := taName ed;
                                                      UnderlyingTy := Some Ty |}]>
                                   (TypeAliases S);
                  NextTypeAlias := NextTypeAlias S; Diags := Diags S |})
          | Some _ =>
              (ExistingDecl,
               warning (TypeAliasLoc ed) "previous declaration here"
                 (error TypeAliasLoc0 ("redefinition of type named '" ++ Name ++ "'") S))
          end
      end
  end.

(** [!Decl->UnderlyingTy.isNull()]. *)
Definition isResolved (S : SemaDecl) (p : TypeAliasPtr) : bool :=
  match TypeAliases S !! p with
  | Some d => match UnderlyingTy d with Some _ => true | None => false end
  | None => false
  end.

(** The compaction loop of [handleEndOfTranslationUnit], in place: the
    range-for reads position [i] of the vector it is rewriting, and an
    unresolved decl is written to position [Next++]. *)
Fixpoint compactLoop (S : SemaDecl) (fuel i Next : nat) (vec : list TypeAliasPtr)
  : list TypeAliasPtr * nat :=
  match fuel with
  | O => (vec, Next)
  | S fuel' =>
      match vec !! i with
      | None => (vec, Next)
      | Some Decl =>
          if isResolved S Decl then compactLoop S fuel' (Datatypes.S i) Next vec
          else compactLoop S fuel' (Datatypes.S i) (Datatypes.S Next) (<[Next := Decl]> vec)
      end
  end.

(** [vector::resize(Next)] with [Next] at most the size: truncation. *)
Definition resize (Next : nat) (vec : list TypeAliasPtr) : list TypeAliasPtr :=
  take Next vec.

Record TranslationUnitDecl (Item : Type) := {
  Body : list Item;
  UnresolvedTypesForParser : list TypeAliasPtr
}.
Arguments Body {Item}.
Arguments UnresolvedTypesForParser {Item}.

(** [handleEndOfTranslationUnit].  The body becomes a copy of the items;
    the prepass over top-level value decls is guarded by [false && ...] and
    has no effect; the unresolved list is compacted and copied to the
    translation unit. *)
Definition handleEndOfTranslationUnit {Item} (S : SemaDecl) (Items : list Item)
  : TranslationUnitDecl Item * SemaDecl :=
  let '(vec, Next) := compactLoop S (length (UnresolvedTypeList S)) 0 0 (UnresolvedTypeList S) in
  let L := resize Next vec in
  ({| Body := Items; UnresolvedTypesForParser := L |},
   {| ValueScopeHT := ValueScopeHT S; TypeScopeHT := TypeScopeHT S; CurDepth := CurDepth S;
      UnresolvedTypes := UnresolvedTypes S; UnresolvedTypeList := L;
      TypeAliases := TypeAliases S; NextTypeAlias := NextTypeAlias S; Diags := Diags S |}).

End Sema.

(* ------------------------------------------------------------------ *)
(** ** What each method emits *)

Lemma skipn_length_app {X} (l c : list X) : skipn (length l) (l ++ c) = c.
Proof. induction l; simpl; auto. Qed.

Ltac run_emitter :=
  intros; match goal with s : IRGenFunction |- _ => destruct s end;
  unfold newCode; cbn; rewrite <- ?app_assoc; cbn;
  rewrite ?skipn_length_app; reflexivity.

Section Emission.
Variables (ti : TypeInfo) (T : CanType) (name : string) (s : IRGenFunction).
Let n := nextValue s.

Lemma allocateStack_result :
  fst (allocateStack ti T name s) =
  {| containerBuf := {| addrPtr := n; addrAlign := getFixedBufferAlignment (IGM s) |};
     containedAddr := {| addrPtr := S (S (S n)); addrAlign := BestKnownAlignment ti |} |}.
Proof. run_emitter. Qed.

Lemma allocateStack_code :
  newCode (allocateStack ti T name) s =
  [IAlloca n (getFixedBufferTy (IGM s)) (getFixedBufferAlignment (IGM s));
   IMetadataRef (S n) T;
   IAllocateBuffer (S (S n)) (S n) n;
   IBitCast (S (S (S n))) (S (S n)) (TPtr (StorageType ti))].
Proof. run_emitter. Qed.

Lemma allocateStack_state :
  IGM (snd (allocateStack ti T name s)) = IGM s /\
  nextValue (snd (allocateStack ti T name s)) = S (S (S (S n))).
Proof. destruct s; split; reflexivity. Qed.

Lemma deallocateStack_code (buffer : Address) :
  newCode (deallocateStack buffer T) s =
  [IMetadataRef n T; IDeallocateBuffer n (addrPtr buffer)].
Proof. run_emitter. Qed.

Lemma allocateBox_result :
  fst (allocateBox ti T name s) =
  {| ownedAddr := {| addrPtr := S (S (S n)); addrAlign := BestKnownAlignment ti |};
     ownedBox := S n |}.
Proof. run_emitter. Qed.

Lemma allocateBox_code :
  newCode (allocateBox ti T name) s =
  [IMetadataRef n T; IAllocBox (S n) (S (S n)) n;
   IBitCast (S (S (S n))) (S (S n)) (TPtr (StorageType ti))].
Proof. run_emitter. Qed.

Lemma getField_code (f : VWField) :
  let m := (wtable <-- getValueWitnessTable T ;; emitLoadOfField f wtable) in
  fst (m s) = S (S n) /\
  newCode m s = [IMetadataRef n T; IVWTRef (S n) n; ILoadField (S (S n)) (S n) f].
Proof. split; run_emitter. Qed.

Lemma getSizeAndAlignmentMaskAndStride_code :
  fst (getSizeAndAlignmentMaskAndStride T s) = (S (S n), S (S (S n)), S (S (S (S n)))) /\
  newCode (getSizeAndAlignmentMaskAndStride T) s =
  [IMetadataRef n T; IVWTRef (S n) n; ILoadField (S (S n)) (S n) FSize;
   ILoadField (S (S (S n))) (S n) FAlignmentMask;
   ILoadField (S (S (S (S n)))) (S n) FStride].
Proof. split; run_emitter. Qed.

Lemma getSizeAndAlignmentMask_code :
  fst (getSizeAndAlignmentMask T s) = (S (S n), S (S (S n))) /\
  newCode (getSizeAndAlignmentMask T) s =
  [IMetadataRef n T; IVWTRef (S n) n; ILoadField (S (S n)) (S n) FSize;
   ILoadField (S (S (S n))) (S n) FAlignmentMask].
Proof. split; run_emitter. Qed.

End Emission.

(* ------------------------------------------------------------------ *)
(** ** Running the emitted code *)

Lemma getMeta_setReg_eq st v T : getMeta (setReg v (RMeta T) st) v = Some T.
Proof. unfold getMeta, setReg; cbn. by rewrite lookup_insert_eq. Qed.

Lemma getWTable_setReg_eq st v T : getWTable (setReg v (RWTable T) st) v = Some T.
Proof. unfold getWTable, setReg; cbn. by rewrite lookup_insert_eq. Qed.

Lemma getWord_setReg_eq st v z : getWord (setReg v (RWord z) st) v = Some z.
Proof. unfold getWord, setReg; cbn. by rewrite lookup_insert_eq. Qed.

Lemma regs_setReg_ne st v w x : v <> w -> regs (setReg v x st) !! w = regs st !! w.
Proof. intros. unfold setReg; cbn. by rewrite lookup_insert_ne. Qed.

Lemma getWord_setReg_ne st v w x : v <> w -> getWord (setReg v x st) w = getWord st w.
Proof. intros. unfold getWord. by rewrite regs_setReg_ne. Qed.

Lemma getMeta_setReg_ne st v w x : v <> w -> getMeta (setReg v x st) w = getMeta st w.
Proof. intros. unfold getMeta. by rewrite regs_setReg_ne. Qed.

Lemma getWTable_setReg_ne st v w x : v <> w -> getWTable (setReg v x st) w = getWTable st w.
Proof. intros. unfold getWTable. by rewrite regs_setReg_ne. Qed.

Create Rewrite HintDb regs.
#[local] Hint Rewrite getMeta_setReg_eq getWTable_setReg_eq getWord_setReg_eq : regs.

(** Symbolic execution of straight-line code over fresh registers. *)
Ltac run_code :=
  repeat first
    [ progress autorewrite with regs
    | rewrite getMeta_setReg_ne by lia
    | rewrite getWTable_setReg_ne by lia
    | rewrite getWord_setReg_ne by lia
    | progress cbn [exec execInstr bind] ].

(** Reading one layout field: the code of [getSize] and its siblings ends
    in a register holding the descriptor's field, with memory, heap, stack
    and heap break unchanged. *)
Lemma exec_getField igm desc T f n st :
  exec igm desc [IMetadataRef n T; IVWTRef (S n) n; ILoadField (S (S n)) (S n) f] st =
  Some (setReg (S (S n)) (RWord (loadField f (desc T)))
          (setReg (S n) (RWTable T) (setReg n (RMeta T) st))).
Proof. cbn. autorewrite with regs. reflexivity. Qed.

(** The code of [allocateStack] at run time: the alloca, then the
    allocateBuffer witness on the fresh buffer. *)
Lemma exec_allocateStack ti T name s desc st :
  0 < FixedBufferAlignment (IGM s) ->
  let n := nextValue s in
  let b := (sp st - FixedBufferSize (IGM s)) / FixedBufferAlignment (IGM s)
           * FixedBufferAlignment (IGM s) in
  let st0 := setReg (S n) (RMeta T)
               (setReg n (RWord b) {| regs := regs st; mem := mem st; heap := heap st;
                                      sp := b; brk := brk st |}) in
  exec (IGM s) desc (newCode (allocateStack ti T name) s) st =
  let '(p, st') := allocateBufferWitness (IGM s) desc T b st0 in
  Some (setReg (S (S (S n))) (RWord p) (setReg (S (S n)) (RWord p) st')).
Proof.
  intros HA n b st0. rewrite allocateStack_code.
  unfold getFixedBufferTy, getFixedBufferAlignment.
  cbn [exec execInstr]. destruct (Z.leb_spec (FixedBufferAlignment (IGM s)) 0); [lia |].
  run_code. fold n b st0.
  destruct (allocateBufferWitness (IGM s) desc T b st0) as [p st'].
  cbn [exec execInstr bind]. unfold setReg; cbn [regs].
  rewrite lookup_insert_eq. reflexivity.
Qed.

(** The alloca'd buffer ends at or below the stack pointer. *)
Lemma fixed_buffer_below_sp (spv C A : Z) :
  0 < A -> (spv - C) / A * A + C <= spv.
Proof.
  intros HA. pose proof (Z.mul_div_le (spv - C) A HA). lia.
Qed.

(** [allocateStack] followed by [deallocateStack] on its buffer and the
    same type: both runs succeed, with the outcome decided by the witnesses. *)
Lemma alloc_dealloc_run ti T name s desc st :
  0 < FixedBufferAlignment (IGM s) ->
  let ca := fst (allocateStack ti T name s) in
  let s1 := snd (allocateStack ti T name s) in
  exists st1 st2 b p,
    exec (IGM s) desc (newCode (allocateStack ti T name) s) st = Some st1 /\
    exec (IGM s) desc (newCode (deallocateStack (containerBuf ca) T) s1) st1 = Some st2 /\
    getWord st1 (addrPtr (containerBuf ca)) = Some b /\
    getWord st1 (addrPtr (containedAddr ca)) = Some p /\
    b = (sp st - FixedBufferSize (IGM s)) / FixedBufferAlignment (IGM s)
        * FixedBufferAlignment (IGM s) /\
    mem st2 = mem st1 /\
    (fitsInFixedBuffer (IGM s) (desc T) = true ->
       p = b /\ heap st1 = heap st /\ heap st2 = heap st1) /\
    (fitsInFixedBuffer (IGM s) (desc T) = false ->
       p = brk st /\ mem st1 !! b = Some p /\
       heap st1 !! p = Some (size (desc T)) /\ heap st2 = delete p (heap st1)).
Proof.
  intros HA ca s1.
  pose proof (exec_allocateStack ti T name s desc st HA) as Hx. cbv zeta in Hx.
  subst ca s1.
  rewrite deallocateStack_code, allocateStack_result.
  destruct (allocateStack_state ti T name s) as [_ Hn]. rewrite Hn. clear Hn.
  rewrite Hx. clear Hx. cbn [addrPtr containerBuf containedAddr].
  set (n := nextValue s).
  set (b := (sp st - FixedBufferSize (IGM s)) / FixedBufferAlignment (IGM s)
            * FixedBufferAlignment (IGM s)).
  unfold allocateBufferWitness, deallocateBufferWitness.
  destruct (fitsInFixedBuffer (IGM s) (desc T)) eqn:Hfit.
  - do 4 eexists. split; [reflexivity |].
    run_code. unfold deallocateBufferWitness. rewrite Hfit. cbv iota beta.
    split; [reflexivity |].
    run_code. split; [reflexivity |]. split; [reflexivity |].
    split; [reflexivity |]. split; [reflexivity |].
    split; [intros _; repeat split; reflexivity | discriminate].
  - unfold heapAlloc. cbn [brk].
    do 4 eexists. split; [reflexivity |].
    cbn [exec execInstr].
    unfold deallocateBufferWitness, heapFree, getWord, getMeta, setReg.
    cbn [regs mem heap sp brk].
    repeat first [ rewrite lookup_insert_eq | rewrite lookup_insert_ne by lia ].
    cbv iota beta. rewrite Hfit. cbn [regs mem heap sp brk].
    repeat first [ rewrite lookup_insert_eq | rewrite lookup_insert_ne by lia ].
    cbv iota beta. split; [reflexivity |].
    cbn [mem heap].
    split; [reflexivity |]. split; [reflexivity |].
    split; [reflexivity |]. split; [reflexivity |].
    split; [discriminate |].
    intros _. auto.
Qed.

(** A layout query run on any descriptor. *)
Lemma query_reads_field (T : CanType) (s : IRGenFunction) (f : VWField) :
  let q := (wtable <-- getValueWitnessTable T ;; emitLoadOfField f wtable) in
  newCode q s =
    [IMetadataRef (nextValue s) T; IVWTRef (S (nextValue s)) (nextValue s);
     ILoadField (S (S (nextValue s))) (S (nextValue s)) f] /\
  forall igm desc st, exists st',
    exec igm desc (newCode q s) st = Some st' /\
    getWord st' (fst (q s)) = Some (loadField f (desc T)) /\
    mem st' = mem st /\ heap st' = heap st /\ sp st' = sp st /\ brk st' = brk st.
Proof.
  intros q. destruct (getField_code T s f) as [Hr Hcode].
  split; [exact Hcode |].
  intros igm desc st. subst q. rewrite Hcode, Hr, exec_getField.
  eexists; split; [reflexivity |].
  repeat split; try reflexivity. apply getWord_setReg_eq.
Qed.

(* ------------------------------------------------------------------ *)
(** ** Concrete instances *)

(** A 64-bit target: a fixed buffer of three words, pointer aligned. *)
Definition module64 : IRGenModule :=
  {| FixedBufferSize := 24; FixedBufferAlignment := 8 |}.

Definition function64 : IRGenFunction :=
  {| IGM := module64; nextValue := 5%nat; insts := [] |}.

Definition opaqueTypeInfo : TypeInfo :=
  {| StorageType := TStorage 0; BestKnownAlignment := 1 |}.

(** Type 0 is a one-word value; every other type has five words. *)
Definition exampleDescriptors (T : CanType) : Descriptor :=
  match T with
  | O => {| size := 8; alignmentMask := 7; stride := 8; isInline := true |}
  | _ => {| size := 40; alignmentMask := 7; stride := 40; isInline := false |}
  end.

Definition initialState : RState :=
  {| regs := ∅; mem := ∅; heap := ∅; sp := 0; brk := 4096 |}.

Module SemaExamples.
Import Sema.
Local Open Scope string_scope.

(** Scope tables with the file scope (0) and one nested scope (1) active
    and nothing entered. *)
Definition emptyScopes {V} : ScopedHashTable V :=
  {| TopLevelMap := ∅; htCurScope := 1%nat; htParents := [0%nat] |}.

(** Semantic analysis at depth [d] with nothing declared; decls are
    allocated from pointer 100 on. *)
Definition semaAtDepth (d : nat) : SemaDecl :=
  {| ValueScopeHT := emptyScopes; TypeScopeHT := emptyScopes; CurDepth := d;
     UnresolvedTypes := ∅; UnresolvedTypeList := []; TypeAliases := ∅;
     NextTypeAlias := 100%nat; Diags := [] |}.

(** A value decl named [x]. *)
Definition declX (id : nat) (init : bool) (prec : Z) (loc : nat) : ValueDecl :=
  {| vdId := id; vdName := "x"; vdInit := init; vdInfixPrecedence := prec; vdLoc := loc |}.

(** Depth 1, with an [x] entered at depth 0. *)
Definition semaOuterX : SemaDecl :=
  {| ValueScopeHT := htInsertIntoScope emptyScopes 0%nat "x" (0%nat, declX 1 true 0 10);
     TypeScopeHT := emptyScopes; CurDepth := 1%nat;
     UnresolvedTypes := ∅; UnresolvedTypeList := []; TypeAliases := ∅;
     NextTypeAlias := 100%nat; Diags := [] |}.

End SemaExamples.

(* ------------------------------------------------------------------ *)
(** ** Claims *)

(** C10: [isFixed()] of the witness-queried implementation is [false]; it
    takes no argument, so this holds for every type and context. *)
Theorem isFixed_false : isFixed = false.
Proof. reflexivity. Qed.

(** C5: [getStaticSize], [getStaticAlignmentMask] and [getStaticStride]
    return [nullptr] ("unknown") for every type info and module, whatever
    the runtime size of the type. *)
Theorem static_layout_unknown (ti : TypeInfo) (igm : IRGenModule) :
  getStaticSize igm = None /\ getStaticAlignmentMask igm = None /\
  getStaticStride igm = None.
Proof. repeat split. Qed.

(** C4: [getSize], [getAlignmentMask] and [getStride] each emit a metadata
    reference for [T], a load of its value witness table and a load of the
    one field; at run time that code yields the field of [T]'s descriptor,
    for every descriptor (so no value is fixed at compile time), and leaves
    memory, heap, stack pointer and heap break as they were. *)
Theorem layout_queries_read_descriptor (T : CanType) (s : IRGenFunction) :
  Forall (fun qf : (CanType -> IRGen ValueId) * VWField =>
    let '(q, f) := qf in
    newCode (q T) s =
      [IMetadataRef (nextValue s) T; IVWTRef (S (nextValue s)) (nextValue s);
       ILoadField (S (S (nextValue s))) (S (nextValue s)) f] /\
    forall igm desc st, exists st',
      exec igm desc (newCode (q T) s) st = Some st' /\
      getWord st' (fst (q T s)) = Some (loadField f (desc T)) /\
      mem st' = mem st /\ heap st' = heap st /\ sp st' = sp st /\ brk st' = brk st)
    [(getSize, FSize); (getAlignmentMask, FAlignmentMask); (getStride, FStride)].
Proof.
  repeat constructor; apply query_reads_field.
Qed.

(** C6: the batched queries emit a single descriptor fetch (one metadata
    reference and one witness table load) followed only by the field loads,
    yield the same size, alignment mask and stride as [getSize],
    [getAlignmentMask] and [getStride] run from the same state, and, like
    them, leave memory, heap, stack pointer and heap break unchanged. *)
Theorem batched_queries_agree (T : CanType) (s : IRGenFunction) igm desc st :
  length (filter fetchesDescriptor (newCode (getSizeAndAlignmentMask T) s)) = 2%nat /\
  length (filter fetchesDescriptor (newCode (getSizeAndAlignmentMaskAndStride T) s)) = 2%nat /\
  newCode (getSizeAndAlignmentMask T) s =
    [IMetadataRef (nextValue s) T; IVWTRef (S (nextValue s)) (nextValue s);
     ILoadField (S (S (nextValue s))) (S (nextValue s)) FSize;
     ILoadField (S (S (S (nextValue s)))) (S (nextValue s)) FAlignmentMask] /\
  newCode (getSizeAndAlignmentMaskAndStride T) s =
    [IMetadataRef (nextValue s) T; IVWTRef (S (nextValue s)) (nextValue s);
     ILoadField (S (S (nextValue s))) (S (nextValue s)) FSize;
     ILoadField (S (S (S (nextValue s)))) (S (nextValue s)) FAlignmentMask;
     ILoadField (S (S (S (S (nextValue s))))) (S (nextValue s)) FStride] /\
  exists st1 st2 st3 st4 st5,
    exec igm desc (newCode (getSize T) s) st = Some st1 /\
    exec igm desc (newCode (getAlignmentMask T) s) st = Some st2 /\
    exec igm desc (newCode (getStride T) s) st = Some st3 /\
    exec igm desc (newCode (getSizeAndAlignmentMask T) s) st = Some st4 /\
    exec igm desc (newCode (getSizeAndAlignmentMaskAndStride T) s) st = Some st5 /\
    mem st4 = mem st /\ heap st4 = heap st /\ sp st4 = sp st /\ brk st4 = brk st /\
    mem st5 = mem st /\ heap st5 = heap st /\ sp st5 = sp st /\ brk st5 = brk st /\
    let '(sz2, al2) := fst (getSizeAndAlignmentMask T s) in
    let '(sz3, al3, sr3) := fst (getSizeAndAlignmentMaskAndStride T s) in
    getWord st4 sz2 = getWord st1 (fst (getSize T s)) /\
    getWord st4 al2 = getWord st2 (fst (getAlignmentMask T s)) /\
    getWord st5 sz3 = getWord st1 (fst (getSize T s)) /\
    getWord st5 al3 = getWord st2 (fst (getAlignmentMask T s)) /\
    getWord st5 sr3 = getWord st3 (fst (getStride T s)).
Proof.
  destruct (getSizeAndAlignmentMask_code T s) as [R2 C2].
  destruct (getSizeAndAlignmentMaskAndStride_code T s) as [R3 C3].
  destruct (getField_code T s FSize) as [Rs Cs].
  destruct (getField_code T s FAlignmentMask) as [Ra Ca].
  destruct (getField_code T s FStride) as [Rt Ct].
  change (getSize T) with (wtable <-- getValueWitnessTable T ;; emitLoadOfField FSize wtable).
  change (getAlignmentMask T)
    with (wtable <-- getValueWitnessTable T ;; emitLoadOfField FAlignmentMask wtable).
  change (getStride T) with (wtable <-- getValueWitnessTable T ;; emitLoadOfField FStride wtable).
  rewrite C2, C3, Cs, Ca, Ct, R2, R3, Rs, Ra, Rt.
  split; [reflexivity | split; [reflexivity | split; [reflexivity | split; [reflexivity |]]]].
  rewrite !exec_getField.
  run_code.
  do 5 eexists. do 13 (split; [reflexivity |]).
  run_code. repeat split; reflexivity.
Qed.

(** C1 (the witnesses modelled from the spec): with a fixed buffer of
    capacity [C] at or below the stack pointer and the heap above it, a
    type whose size is at most [C] and whose alignment the buffer satisfies
    gets a payload address inside the buffer; a type larger than [C] gets a
    live heap cell outside the buffer whose address is stored in the
    buffer; in both cases the one [deallocateStack] code for the buffer and
    [T] runs successfully. *)
Theorem allocateStack_spill_transparency ti T name s desc st :
  0 < FixedBufferSize (IGM s) -> 0 < FixedBufferAlignment (IGM s) ->
  sp st <= 0 < brk st ->
  let C := FixedBufferSize (IGM s) in
  let ca := fst (allocateStack ti T name s) in
  let s1 := snd (allocateStack ti T name s) in
  exists st1 b p,
    exec (IGM s) desc (newCode (allocateStack ti T name) s) st = Some st1 /\
    getWord st1 (addrPtr (containerBuf ca)) = Some b /\
    getWord st1 (addrPtr (containedAddr ca)) = Some p /\
    (size (desc T) <= C -> alignmentMask (desc T) + 1 <= FixedBufferAlignment (IGM s) ->
       b <= p < b + C) /\
    (C < size (desc T) ->
       (p < b \/ b + C <= p) /\ heap st1 !! p = Some (size (desc T)) /\
       exists a, b <= a < b + C /\ mem st1 !! a = Some p) /\
    exists st2,
      exec (IGM s) desc (newCode (deallocateStack (containerBuf ca) T) s1) st1 = Some st2.
Proof.
  intros HC HA Hst C ca s1.
  destruct (alloc_dealloc_run ti T name s desc st HA)
    as (st1 & st2 & b & p & H1 & H2 & Hb & Hp & Hbv & _ & Hin & Hout).
  pose proof (fixed_buffer_below_sp (sp st) (FixedBufferSize (IGM s))
                (FixedBufferAlignment (IGM s)) HA) as Hbelow.
  rewrite <- Hbv in Hbelow.
  exists st1, b, p. do 3 (split; [assumption |]).
  split; [| split].
  - intros Hsz Hal.
    assert (Hfit : fitsInFixedBuffer (IGM s) (desc T) = true).
    { unfold fitsInFixedBuffer. apply andb_true_intro. split; apply Z.leb_le; lia. }
    destruct (Hin Hfit) as [-> _]. subst C. lia.
  - intros Hsz.
    assert (Hfit : fitsInFixedBuffer (IGM s) (desc T) = false).
    { unfold fitsInFixedBuffer. destruct (Z.leb_spec (size (desc T)) (FixedBufferSize (IGM s)));
        [lia | reflexivity]. }
    destruct (Hout Hfit) as (Hpv & Hmem & Hheap & _).
    split; [subst C; lia |]. split; [assumption |].
    exists b. split; [subst C; lia | assumption].
  - exists st2. exact H2.
Qed.

(** C7 (the witnesses modelled from the spec): [deallocateStack] emits only
    a metadata reference for [T] and the deallocateBuffer witness call on
    the buffer it is given, so with the buffer and type of the allocation
    both witness calls see the same buffer and the same type; no byte of the
    buffer is read by the emitted code itself.  At run time the witness
    leaves memory alone, frees the heap cell of a spilled value and changes
    nothing for an inline one. *)
Theorem deallocateStack_delegates_to_witness ti T name s desc st :
  0 < FixedBufferAlignment (IGM s) ->
  let ca := fst (allocateStack ti T name s) in
  let s1 := snd (allocateStack ti T name s) in
  In (IMetadataRef (S (nextValue s)) T) (newCode (allocateStack ti T name) s) /\
  In (IAllocateBuffer (S (S (nextValue s))) (S (nextValue s)) (addrPtr (containerBuf ca)))
     (newCode (allocateStack ti T name) s) /\
  newCode (deallocateStack (containerBuf ca) T) s1 =
    [IMetadataRef (nextValue s1) T; IDeallocateBuffer (nextValue s1) (addrPtr (containerBuf ca))] /\
  exists st1 st2 b p,
    exec (IGM s) desc (newCode (allocateStack ti T name) s) st = Some st1 /\
    exec (IGM s) desc (newCode (deallocateStack (containerBuf ca) T) s1) st1 = Some st2 /\
    getWord st1 (addrPtr (containerBuf ca)) = Some b /\
    getWord st1 (addrPtr (containedAddr ca)) = Some p /\
    mem st2 = mem st1 /\
    (fitsInFixedBuffer (IGM s) (desc T) = true -> p = b /\ heap st2 = heap st1) /\
    (fitsInFixedBuffer (IGM s) (desc T) = false ->
       mem st1 !! b = Some p /\ heap st1 !! p = Some (size (desc T)) /\
       heap st2 = delete p (heap st1)).
Proof.
  intros HA ca s1.
  split; [| split; [| split]].
  - rewrite allocateStack_code. right. left. reflexivity.
  - subst ca. rewrite allocateStack_code, allocateStack_result. right. right. left. reflexivity.
  - apply deallocateStack_code.
  - destruct (alloc_dealloc_run ti T name s desc st HA)
      as (st1 & st2 & b & p & H1 & H2 & Hb & Hp & _ & Hm & Hin & Hout).
    exists st1, st2, b, p. do 5 (split; [assumption |]). split.
    + intros Hfit. destruct (Hin Hfit) as (-> & _ & ->). auto.
    + intros Hfit. destruct (Hout Hfit) as (_ & ? & ? & ?). auto.
Qed.

(** C8: [allocateBox] emits the metadata reference for [T], the allocBox
    runtime call on it and a bit-cast of the payload address to a pointer to
    the storage type; no layout field is loaded by the emitted code.  It
    returns the bit-cast address, at the type's best known alignment, paired
    with the box.  At run time (swift_allocBox modelled from the spec) the
    runtime reads the size from the descriptor: the box is a live heap cell
    of header plus payload size and the payload follows the header. *)
Theorem allocateBox_calls_box_witness ti T name s igm desc st :
  let n := nextValue s in
  newCode (allocateBox ti T name) s =
    [IMetadataRef n T; IAllocBox (S n) (S (S n)) n;
     IBitCast (S (S (S n))) (S (S n)) (TPtr (StorageType ti))] /\
  filter readsLayoutField (newCode (allocateBox ti T name) s) = [] /\
  fst (allocateBox ti T name s) =
    {| ownedAddr := {| addrPtr := S (S (S n)); addrAlign := BestKnownAlignment ti |};
       ownedBox := S n |} /\
  exists st' bx,
    exec igm desc (newCode (allocateBox ti T name) s) st = Some st' /\
    getWord st' (ownedBox (fst (allocateBox ti T name s))) = Some bx /\
    getWord st' (addrPtr (ownedAddr (fst (allocateBox ti T name s)))) =
      Some (bx + HeapObjectHeaderSize) /\
    heap st' !! bx = Some (HeapObjectHeaderSize + size (desc T)).
Proof.
  intros n. rewrite allocateBox_code, allocateBox_result.
  split; [reflexivity | split; [reflexivity | split; [reflexivity |]]].
  cbn [exec execInstr]. run_code. unfold allocBoxRuntime, heapAlloc.
  unfold getWord, setReg. cbn [regs heap].
  repeat first [ rewrite lookup_insert_eq | rewrite lookup_insert_ne by lia ].
  cbv iota beta. cbn [regs heap].
  do 2 eexists. split; [reflexivity |].
  repeat first [ rewrite lookup_insert_eq | rewrite lookup_insert_ne by lia ].
  cbn [regs heap brk].
  repeat first [ rewrite lookup_insert_eq | rewrite lookup_insert_ne by lia ].
  cbn [ownedBox]. rewrite !lookup_insert_ne by lia. rewrite lookup_insert_eq. auto.
Qed.

(** C9 (the descriptor's layout modelled from the spec): for a descriptor
    laid out by the runtime, the values the code of [getSize],
    [getAlignmentMask] and [getStride] yields satisfy [size <= stride] and
    [stride mod (alignmentMask + 1) = 0]. *)
Theorem layout_stride_invariant (T : CanType) (s : IRGenFunction) igm desc st :
  wellFormedDescriptor (desc T) ->
  exists st1 st2 st3 sz al sr,
    exec igm desc (newCode (getSize T) s) st = Some st1 /\
    getWord st1 (fst (getSize T s)) = Some sz /\
    exec igm desc (newCode (getAlignmentMask T) s) st = Some st2 /\
    getWord st2 (fst (getAlignmentMask T s)) = Some al /\
    exec igm desc (newCode (getStride T) s) st = Some st3 /\
    getWord st3 (fst (getStride T s)) = Some sr /\
    sz <= sr /\ sr mod (al + 1) = 0.
Proof.
  intros (Hsz & (k & Hk & Hal) & Hsr).
  destruct (query_reads_field T s FSize) as [_ Hs].
  destruct (query_reads_field T s FAlignmentMask) as [_ Ha].
  destruct (query_reads_field T s FStride) as [_ Ht].
  destruct (Hs igm desc st) as (st1 & E1 & W1 & _).
  destruct (Ha igm desc st) as (st2 & E2 & W2 & _).
  destruct (Ht igm desc st) as (st3 & E3 & W3 & _).
  exists st1, st2, st3, (size (desc T)), (alignmentMask (desc T)), (stride (desc T)).
  do 6 (split; [assumption |]).
  assert (Hpos : 0 < alignmentMask (desc T) + 1).
  { rewrite Hal. pose proof (Z.pow_pos_nonneg 2 k ltac:(lia) Hk). lia. }
  rewrite Hsr. split.
  - set (a := alignmentMask (desc T) + 1) in *.
    replace (size (desc T) + alignmentMask (desc T)) with (size (desc T) + (a - 1)) by (subst a; lia).
    pose proof (Z.div_mod (size (desc T) + (a - 1)) a ltac:(lia)).
    pose proof (Z.mod_pos_bound (size (desc T) + (a - 1)) a Hpos). nia.
  - apply Z.mod_mul. lia.
Qed.

(** C2, counterexample: the buffer [allocateStack] hands to the
    allocateBuffer witness is not a value its caller supplied: it is a
    fresh SSA value, defined by an alloca that [allocateStack] itself emits. *)
Lemma allocateStack_creates_its_buffer :
  let ca := fst (allocateStack opaqueTypeInfo 0%nat "tmp" function64) in
  ~ (addrPtr (containerBuf ca) < nextValue function64)%nat /\
  nth_error (newCode (allocateStack opaqueTypeInfo 0%nat "tmp") function64) 0 =
    Some (IAlloca (addrPtr (containerBuf ca)) (TFixedBuffer 24) 8).
Proof. vm_compute. split; [lia | reflexivity]. Qed.

(** C2, amended: [allocateStack] allocates the fixed buffer itself, with an
    alloca of the module's fixed buffer type and alignment; neither depends
    on [T], the name or the call site, only on the module.  It then calls
    the allocateBuffer witness with that buffer and [T]'s metadata. *)
Theorem allocateStack_fixed_buffer_per_module ti T name s :
  let n := nextValue s in
  let ca := fst (allocateStack ti T name s) in
  addrPtr (containerBuf ca) = n /\
  addrAlign (containerBuf ca) = getFixedBufferAlignment (IGM s) /\
  newCode (allocateStack ti T name) s =
    [IAlloca n (getFixedBufferTy (IGM s)) (getFixedBufferAlignment (IGM s));
     IMetadataRef (S n) T;
     IAllocateBuffer (S (S n)) (S n) n;
     IBitCast (S (S (S n))) (S (S n)) (TPtr (StorageType ti))] /\
  forall ti' T' name' s', IGM s' = IGM s ->
    head (newCode (allocateStack ti' T' name') s') =
      Some (IAlloca (nextValue s') (getFixedBufferTy (IGM s)) (getFixedBufferAlignment (IGM s))).
Proof.
  intros n ca. subst ca. rewrite allocateStack_result.
  split; [reflexivity | split; [reflexivity | split]].
  - apply allocateStack_code.
  - intros ti' T' name' s' Hm. rewrite allocateStack_code, Hm. reflexivity.
Qed.

(** C3, counterexample: in an [NDEBUG] build the extra inhabitant read does
    not end on a diagnostic: it reaches [llvm_unreachable], which is
    undefined behaviour there. *)
Lemma extra_inhabitant_read_undefined_in_ndebug :
  fst (getExtraInhabitantIndex true {| addrPtr := 0%nat; addrAlign := 1 |} 0%nat function64)
    = Undefined /\
  ~ exists msg, fst (getExtraInhabitantIndex true {| addrPtr := 0%nat; addrAlign := 1 |}
                       0%nat function64) = Fatal msg.
Proof. split; [reflexivity | intros [msg H]; discriminate H]. Qed.

(** C3, amended: [mayHaveExtraInhabitants] is [false] for every module;
    [getExtraInhabitantIndex] and [storeExtraInhabitant] never return and
    emit nothing: they reach [llvm_unreachable("dynamic extra inhabitants
    not supported")], which with assertions stops the compiler with that
    message and in an [NDEBUG] build is undefined behaviour. *)
Theorem extra_inhabitants_unsupported (NDEBUG : bool) (igm : IRGenModule)
    (src dest : Address) (index : ValueId) (T : CanType) (s : IRGenFunction) :
  mayHaveExtraInhabitants igm = false /\
  getExtraInhabitantIndex NDEBUG src T s =
    (if NDEBUG then Undefined else Fatal "dynamic extra inhabitants not supported", s) /\
  storeExtraInhabitant NDEBUG index dest T s =
    (if NDEBUG then Undefined else Fatal "dynamic extra inhabitants not supported", s).
Proof. repeat split. Qed.

(** C1 witness: a five-word type, which spills, from the initial state. *)
Lemma allocateStack_spill_transparency_witness :
  (0 < FixedBufferSize (IGM function64) /\ 0 < FixedBufferAlignment (IGM function64) /\
   sp initialState <= 0 < brk initialState) /\
  let C := FixedBufferSize (IGM function64) in
  let ca := fst (allocateStack opaqueTypeInfo 1%nat "tmp" function64) in
  let s1 := snd (allocateStack opaqueTypeInfo 1%nat "tmp" function64) in
  exists st1 b p,
    exec (IGM function64) exampleDescriptors (newCode (allocateStack opaqueTypeInfo 1%nat "tmp") function64) initialState = Some st1 /\
    getWord st1 (addrPtr (containerBuf ca)) = Some b /\
    getWord st1 (addrPtr (containedAddr ca)) = Some p /\
    (size (exampleDescriptors 1%nat) <= C -> alignmentMask (exampleDescriptors 1%nat) + 1 <= FixedBufferAlignment (IGM function64) ->
       b <= p < b + C) /\
    (C < size (exampleDescriptors 1%nat) ->
       (p < b \/ b + C <= p) /\ heap st1 !! p = Some (size (exampleDescriptors 1%nat)) /\
       exists a, b <= a < b + C /\ mem st1 !! a = Some p) /\
    exists st2,
      exec (IGM function64) exampleDescriptors (newCode (deallocateStack (containerBuf ca) 1%nat) s1) st1 = Some st2.
Proof.
  split; [cbn [function64 module64 initialState IGM FixedBufferSize FixedBufferAlignment sp brk]; lia |].
  apply (allocateStack_spill_transparency opaqueTypeInfo 1%nat "tmp" function64
           exampleDescriptors initialState);
    cbn [function64 module64 initialState IGM FixedBufferSize FixedBufferAlignment sp brk]; lia.
Defined.

(** C7 witness: a one-word type, stored inline. *)
Lemma deallocateStack_delegates_to_witness_witness :
  0 < FixedBufferAlignment (IGM function64) /\
  let ca := fst (allocateStack opaqueTypeInfo 0%nat "tmp" function64) in
  let s1 := snd (allocateStack opaqueTypeInfo 0%nat "tmp" function64) in
  In (IMetadataRef (S (nextValue function64)) 0%nat) (newCode (allocateStack opaqueTypeInfo 0%nat "tmp") function64) /\
  In (IAllocateBuffer (S (S (nextValue function64))) (S (nextValue function64)) (addrPtr (containerBuf ca)))
     (newCode (allocateStack opaqueTypeInfo 0%nat "tmp") function64) /\
  newCode (deallocateStack (containerBuf ca) 0%nat) s1 =
    [IMetadataRef (nextValue s1) 0%nat; IDeallocateBuffer (nextValue s1) (addrPtr (containerBuf ca))] /\
  exists st1 st2 b p,
    exec (IGM function64) exampleDescriptors (newCode (allocateStack opaqueTypeInfo 0%nat "tmp") function64) initialState = Some st1 /\
    exec (IGM function64) exampleDescriptors (newCode (deallocateStack (containerBuf ca) 0%nat) s1) st1 = Some st2 /\
    getWord st1 (addrPtr (containerBuf ca)) = Some b /\
    getWord st1 (addrPtr (containedAddr ca)) = Some p /\
    mem st2 = mem st1 /\
    (fitsInFixedBuffer (IGM function64) (exampleDescriptors 0%nat) = true -> p = b /\ heap st2 = heap st1) /\
    (fitsInFixedBuffer (IGM function64) (exampleDescriptors 0%nat) = false ->
       mem st1 !! b = Some p /\ heap st1 !! p = Some (size (exampleDescriptors 0%nat)) /\
       heap st2 = delete p (heap st1)).
Proof.
  split; [cbn [function64 module64 IGM FixedBufferAlignment]; lia |].
  apply (deallocateStack_delegates_to_witness opaqueTypeInfo 0%nat "tmp" function64
           exampleDescriptors initialState).
  cbn [function64 module64 IGM FixedBufferAlignment]; lia.
Defined.

(** C9 witness: the five-word type of the example descriptors. *)
Lemma layout_stride_invariant_witness :
  wellFormedDescriptor (exampleDescriptors 1%nat) /\
  exists st1 st2 st3 sz al sr,
    exec module64 exampleDescriptors (newCode (getSize 1%nat) function64) initialState = Some st1 /\
    getWord st1 (fst (getSize 1%nat function64)) = Some sz /\
    exec module64 exampleDescriptors (newCode (getAlignmentMask 1%nat) function64) initialState = Some st2 /\
    getWord st2 (fst (getAlignmentMask 1%nat function64)) = Some al /\
    exec module64 exampleDescriptors (newCode (getStride 1%nat) function64) initialState = Some st3 /\
    getWord st3 (fst (getStride 1%nat function64)) = Some sr /\
    sz <= sr /\ sr mod (al + 1) = 0.
Proof.
  assert (H : wellFormedDescriptor (exampleDescriptors 1%nat)).
  { unfold wellFormedDescriptor; cbn. split; [lia | split; [exists 3; split; [lia | reflexivity] | reflexivity]]. }
  split; [exact H |].
  apply (layout_stride_invariant 1%nat function64 module64 exampleDescriptors initialState).
  exact H.
Defined.

(* ------------------------------------------------------------------ *)
(** ** Further properties: SemaDecl *)

Module SemaFacts.
Import Sema.

Lemma htBegin_insertIntoScope_eq {V} (ht : ScopedHashTable V) sc k v :
  htBegin (htInsertIntoScope ht sc k v) k = Some v.
Proof. unfold htBegin, htInsertIntoScope. cbn. by rewrite lookup_insert_eq. Qed.

Lemma htBegin_insertIntoScope_ne {V} (ht : ScopedHashTable V) sc k k' v :
  k <> k' -> htBegin (htInsertIntoScope ht sc k v) k' = htBegin ht k'.
Proof. intros. unfold htBegin, htInsertIntoScope. cbn. by rewrite lookup_insert_ne. Qed.

Lemma LookupValueName_setValueHT_ne S ht n k v :
  k <> n ->
  LookupValueName (setValueHT S (htInsert ht k v)) n = LookupValueName (setValueHT S ht) n.
Proof.
  intros. unfold LookupValueName, htLookup, htInsert. cbn.
  by rewrite htBegin_insertIntoScope_ne.
Qed.

(** [AddToScope] with no entry for the name at the current depth enters
    the decl into the current scope at the current depth, on top of the
    name's existing chain of outer entries, which is kept, without a
    diagnostic; [LookupValueName] then finds it, except at the top level
    (depth 0), where lookups are left to name binding.  Other names are
    unaffected. *)
Theorem AddToScope_enters_decl (S : SemaDecl) (D : ValueDecl) :
  (forall depth prev,
     htBegin (ValueScopeHT S) (vdName D) = Some (depth, prev) -> depth <> CurDepth S) ->
  TopLevelMap (ValueScopeHT (AddToScope S D)) !! vdName D =
    Some ((htCurScope (ValueScopeHT S), (CurDepth S, D))
          :: default [] (TopLevelMap (ValueScopeHT S) !! vdName D)) /\
  htBegin (ValueScopeHT (AddToScope S D)) (vdName D) = Some (CurDepth S, D) /\
  Diags (AddToScope S D) = Diags S /\
  LookupValueName (AddToScope S D) (vdName D) =
    (if Nat.eqb (CurDepth S) 0 then None else Some D) /\
  (forall n, n <> vdName D -> LookupValueName (AddToScope S D) n = LookupValueName S n).
Proof.
  intros Hno.
  assert (HA : AddToScope S D =
               setValueHT S (htInsert (ValueScopeHT S) (vdName D) (CurDepth S, D))).
  { unfold AddToScope.
    destruct (htBegin (ValueScopeHT S) (vdName D)) as [[depth prev] |] eqn:E; [| reflexivity].
    specialize (Hno depth prev eq_refl).
    destruct (Nat.eqb_spec depth (CurDepth S)); [contradiction | reflexivity]. }
  rewrite HA. split; [| split; [| split; [reflexivity | split]]].
  - unfold setValueHT, htInsert, htInsertIntoScope. cbn. by rewrite lookup_insert_eq.
  - apply htBegin_insertIntoScope_eq.
  - unfold LookupValueName, htLookup, htInsert. cbn. rewrite htBegin_insertIntoScope_eq.
    reflexivity.
  - intros n Hn. rewrite LookupValueName_setValueHT_ne by congruence.
    destruct S; reflexivity.
Qed.

(** In a nested scope (depth not 0), a second decl of a name already
    entered at that depth is rejected: the table is unchanged, and an error
    at the new decl and a note at the previous one are reported, worded by
    whether each has an initializer. *)
Theorem AddToScope_nested_redefinition (S : SemaDecl) (D prev : ValueDecl) :
  htBegin (ValueScopeHT S) (vdName D) = Some (CurDepth S, prev) ->
  CurDepth S <> 0%nat ->
  ValueScopeHT (AddToScope S D) = ValueScopeHT S /\
  Diags (AddToScope S D) =
    Diags S ++
    [{| diagKind := DError; diagLoc := vdLoc D;
        diagMsg := if vdInit D then "definition conflicts with previous value"
                   else "declaration conflicts with previous value" |};
     {| diagKind := DNote; diagLoc := vdLoc prev;
        diagMsg := if vdInit prev then "previous definition here"
                   else "previous declaration here" |}].
Proof.
  intros Hb Hd. unfold AddToScope. rewrite Hb, Nat.eqb_refl.
  destruct (Nat.eqb_spec (CurDepth S) 0); [contradiction |]. cbn [negb].
  unfold DiagnoseRedefinition, note, error, diag.
  destruct (vdInit D), (vdInit prev); cbn; split; try reflexivity;
    rewrite <- app_assoc; reflexivity.
Qed.

(** At the top level (depth 0) a second decl of a name is an overload: it
    is rejected with an error and a note when its infix precedence differs
    from the previous decl's, and otherwise entered on top of it with no
    diagnostic; [LookupValueName] still answers nothing at the top level. *)
Theorem AddToScope_toplevel_overload (S : SemaDecl) (D prev : ValueDecl) :
  htBegin (ValueScopeHT S) (vdName D) = Some (0%nat, prev) ->
  CurDepth S = 0%nat ->
  (vdInfixPrecedence D <> vdInfixPrecedence prev ->
     ValueScopeHT (AddToScope S D) = ValueScopeHT S /\
     Diags (AddToScope S D) =
       Diags S ++
       [{| diagKind := DError; diagLoc := vdLoc D;
           diagMsg := "infix precedence of functions in an overload set must match" |};
        {| diagKind := DNote; diagLoc := vdLoc prev; diagMsg := "previous declaration here" |}]) /\
  (vdInfixPrecedence D = vdInfixPrecedence prev ->
     Diags (AddToScope S D) = Diags S /\
     (exists chain,
        TopLevelMap (ValueScopeHT S) !! vdName D = Some chain /\
        TopLevelMap (ValueScopeHT (AddToScope S D)) !! vdName D =
          Some ((htCurScope (ValueScopeHT S), (0%nat, D)) :: chain)) /\
     LookupValueName (AddToScope S D) (vdName D) = None).
Proof.
  intros Hb Hd. unfold AddToScope. rewrite Hb, Hd. cbn [Nat.eqb negb].
  unfold CheckValidOverload.
  split; intros Hp.
  - destruct (Z.eqb_spec (vdInfixPrecedence D) (vdInfixPrecedence prev)); [contradiction |].
    cbn. split; [reflexivity |]. rewrite <- app_assoc. reflexivity.
  - rewrite Hp, Z.eqb_refl. cbn [negb].
    unfold htBegin in Hb.
    destruct (TopLevelMap (ValueScopeHT S) !! vdName D) as [chain |] eqn:E;
      [| discriminate].
    split; [reflexivity | split].
    + exists chain. split; [reflexivity |].
      unfold setValueHT, htInsert, htInsertIntoScope. cbn.
      rewrite lookup_insert_eq, E, Hd. reflexivity.
    + unfold LookupValueName, htLookup, setValueHT, htInsert.
      cbn [ValueScopeHT]. rewrite htBegin_insertIntoScope_eq, Hd. reflexivity.
Qed.


Lemma LookupTypeName_hit (S : SemaDecl) Name Loc d p :
  htLookup (TypeScopeHT S) Name = Some (d, p) -> LookupTypeName S Name Loc = (p, S).
Proof. intros H. unfold LookupTypeName. by rewrite H. Qed.

Lemma htLookup_insertIntoScope_eq {V} (ht : ScopedHashTable V) sc k v :
  htLookup (htInsertIntoScope ht sc k v) k = Some v.
Proof. apply htBegin_insertIntoScope_eq. Qed.

(** A use of a type name with no decl in scope makes a forward reference:
    a fresh, unresolved decl at the use's location, entered with depth 0
    into the outermost scope (not the current one) on top of the name's
    chain, and recorded by name and at the end of the list of
    unresolved types; a later use of the name, at any location, returns the
    same decl and changes nothing. *)
Theorem LookupTypeName_forward_reference (S : SemaDecl) Name Loc :
  htLookup (TypeScopeHT S) Name = None ->
  let p := fst (LookupTypeName S Name Loc) in
  let S1 := snd (LookupTypeName S Name Loc) in
  p = NextTypeAlias S /\
  TypeAliases S1 !! p = Some {| TypeAliasLoc := Loc; taName := Name; UnderlyingTy := None |} /\
  UnresolvedTypes S1 !! Name = Some p /\
  UnresolvedTypeList S1 = UnresolvedTypeList S ++ [p] /\
  TopLevelMap (TypeScopeHT S1) !! Name =
    Some ((htOutermostScope (TypeScopeHT S), (0%nat, p))
          :: default [] (TopLevelMap (TypeScopeHT S) !! Name)) /\
  htLookup (TypeScopeHT S1) Name = Some (0%nat, p) /\
  Diags S1 = Diags S /\
  (forall Loc', LookupTypeName S1 Name Loc' = (p, S1)).
Proof.
  intros H. unfold LookupTypeName at 1 2. rewrite H. cbn zeta.
  cbn [fst snd TypeAliases UnresolvedTypes UnresolvedTypeList TypeScopeHT Diags].
  rewrite !lookup_insert_eq, htLookup_insertIntoScope_eq.
  unfold htInsertIntoScope at 1. cbn [TopLevelMap]. rewrite lookup_insert_eq.
  repeat split; try reflexivity.
  intros Loc'. apply LookupTypeName_hit with (d := 0%nat).
  apply htLookup_insertIntoScope_eq.
Qed.

(** At the top level, a type alias for a name that was used before its
    definition completes the forward reference: it returns the same decl,
    now carrying the aliased type and the definition's location, removes
    the name from the unresolved types and reports nothing; later uses of
    the name find that decl. *)
Theorem forward_reference_completed_at_top_level (S : SemaDecl) Name Loc Loc' Loc'' Ty :
  htLookup (TypeScopeHT S) Name = None ->
  CurDepth S = 0%nat ->
  let p := fst (LookupTypeName S Name Loc) in
  let S1 := snd (LookupTypeName S Name Loc) in
  let q := fst (ActOnTypeAlias S1 Loc' Name Ty) in
  let S2 := snd (ActOnTypeAlias S1 Loc' Name Ty) in
  q = p /\
  TypeAliases S2 !! p = Some {| TypeAliasLoc := Loc'; taName := Name; UnderlyingTy := Some Ty |} /\
  UnresolvedTypes S2 !! Name = None /\
  UnresolvedTypeList S2 = UnresolvedTypeList S ++ [p] /\
  Diags S2 = Diags S /\
  LookupTypeName S2 Name Loc'' = (p, S2).
Proof.
  intros H Hd. unfold LookupTypeName at 1 2. rewrite H. cbn zeta.
  cbn [fst snd]. unfold ActOnTypeAlias. cbn [TypeScopeHT CurDepth TypeAliases].
  rewrite htLookup_insertIntoScope_eq, Hd. cbn [Nat.eqb negb].
  rewrite lookup_insert_eq. cbn [UnderlyingTy taName fst snd TypeAliases UnresolvedTypes UnresolvedTypeList Diags].
  rewrite lookup_insert_eq, lookup_delete_eq.
  repeat split; try reflexivity.
  apply LookupTypeName_hit with (d := 0%nat). cbn. apply htLookup_insertIntoScope_eq.
Qed.

(** Inside a nested scope (depth not 0), a type alias for a name that was
    used before does not complete the forward reference, which sits at
    depth 0: it creates another decl, which later uses of the name find,
    while the forward reference stays unresolved and recorded by name. *)
Theorem forward_reference_not_completed_in_nested_scope (S : SemaDecl) Name Loc Loc' Loc'' Ty :
  htLookup (TypeScopeHT S) Name = None ->
  CurDepth S <> 0%nat ->
  let p := fst (LookupTypeName S Name Loc) in
  let S1 := snd (LookupTypeName S Name Loc) in
  let q := fst (ActOnTypeAlias S1 Loc' Name Ty) in
  let S2 := snd (ActOnTypeAlias S1 Loc' Name Ty) in
  q <> p /\
  TypeAliases S2 !! p = Some {| TypeAliasLoc := Loc; taName := Name; UnderlyingTy := None |} /\
  TypeAliases S2 !! q = Some {| TypeAliasLoc := Loc'; taName := Name; UnderlyingTy := Some Ty |} /\
  UnresolvedTypes S2 !! Name = Some p /\
  UnresolvedTypeList S2 = UnresolvedTypeList S ++ [p] /\
  Diags S2 = Diags S /\
  LookupTypeName S2 Name Loc'' = (q, S2).
Proof.
  intros H Hd. unfold LookupTypeName at 1 2. rewrite H. cbn zeta.
  cbn [fst snd]. unfold ActOnTypeAlias. cbn [TypeScopeHT CurDepth TypeAliases].
  rewrite htLookup_insertIntoScope_eq.
  destruct (Nat.eqb_spec 0 (CurDepth S)) as [E | _]; [congruence |]. cbn [negb].
  cbn [fst snd TypeAliases UnresolvedTypes UnresolvedTypeList Diags NextTypeAlias].
  rewrite lookup_insert_ne by lia. rewrite !lookup_insert_eq.
  repeat split; try reflexivity; try lia.
  apply LookupTypeName_hit with (d := CurDepth S). cbn. apply htLookup_insertIntoScope_eq.
Qed.

(** A second type alias for a name already defined at the current depth is
    rejected: the existing decl is returned, the decl store and the tables
    are unchanged, and an error at the new definition and a warning at the
    existing one are reported. *)
Theorem ActOnTypeAlias_redefinition (S : SemaDecl) Loc Name Ty p ed ty0 :
  htLookup (TypeScopeHT S) Name = Some (CurDepth S, p) ->
  TypeAliases S !! p = Some ed ->
  UnderlyingTy ed = Some ty0 ->
  fst (ActOnTypeAlias S Loc Name Ty) = p /\
  TypeAliases (snd (ActOnTypeAlias S Loc Name Ty)) = TypeAliases S /\
  TypeScopeHT (snd (ActOnTypeAlias S Loc Name Ty)) = TypeScopeHT S /\
  UnresolvedTypes (snd (ActOnTypeAlias S Loc Name Ty)) = UnresolvedTypes S /\
  Diags (snd (ActOnTypeAlias S Loc Name Ty)) =
    Diags S ++
    [{| diagKind := DError; diagLoc := Loc;
        diagMsg := "redefinition of type named '" ++ Name ++ "'" |};
     {| diagKind := DWarning; diagLoc := TypeAliasLoc ed;
        diagMsg := "previous declaration here" |}].
Proof.
  intros H He Hu. unfold ActOnTypeAlias. rewrite H, Nat.eqb_refl, He, Hu. cbn.
  repeat split. rewrite <- app_assoc. reflexivity.
Qed.

(** A type alias for a name with no decl at the current depth creates a
    fresh decl carrying the aliased type, entered into the current scope at
    the current depth, on top of the name's chain, without a diagnostic; the unresolved types are untouched and later uses
    of the name find the new decl. *)
Theorem ActOnTypeAlias_new_name (S : SemaDecl) Loc Loc' Name Ty :
  (forall d p, htLookup (TypeScopeHT S) Name = Some (d, p) -> d <> CurDepth S) ->
  let p := fst (ActOnTypeAlias S Loc Name Ty) in
  let S1 := snd (ActOnTypeAlias S Loc Name Ty) in
  p = NextTypeAlias S /\
  TypeAliases S1 !! p = Some {| TypeAliasLoc := Loc; taName := Name; UnderlyingTy := Some Ty |} /\
  UnresolvedTypes S1 = UnresolvedTypes S /\
  TopLevelMap (TypeScopeHT S1) !! Name =
    Some ((htCurScope (TypeScopeHT S), (CurDepth S, p))
          :: default [] (TopLevelMap (TypeScopeHT S) !! Name)) /\
  UnresolvedTypeList S1 = UnresolvedTypeList S /\
  Diags S1 = Diags S /\
  LookupTypeName S1 Name Loc' = (p, S1).
Proof.
  intros Hno.
  assert (HA : ActOnTypeAlias S Loc Name Ty =
    (NextTypeAlias S,
     {| ValueScopeHT := ValueScopeHT S;
        TypeScopeHT := htInsert (TypeScopeHT S) Name (CurDepth S, NextTypeAlias S);
        CurDepth := CurDepth S;
        UnresolvedTypes := UnresolvedTypes S;
        UnresolvedTypeList := UnresolvedTypeList S;
        TypeAliases := <[NextTypeAlias S := {| TypeAliasLoc := Loc; taName := Name;
                                               UnderlyingTy := Some Ty |}]> (TypeAliases S);
        NextTypeAlias := Datatypes.S (NextTypeAlias S);
        Diags := Diags S |})).
  { unfold ActOnTypeAlias.
    destruct (htLookup (TypeScopeHT S) Name) as [[d e] |] eqn:E; [| reflexivity].
    specialize (Hno d e eq_refl).
    destruct (Nat.eqb_spec d (CurDepth S)); [contradiction | reflexivity]. }
  cbv zeta. rewrite HA. cbn [fst snd TypeAliases UnresolvedTypes UnresolvedTypeList Diags].
  rewrite lookup_insert_eq. repeat split.
  { unfold htInsert, htInsertIntoScope. cbn. by rewrite lookup_insert_eq. }
  apply LookupTypeName_hit with (d := CurDepth S). apply htLookup_insertIntoScope_eq.
Qed.


(** The in-place compaction loop keeps, in order, exactly the decls of the
    list that are still unresolved. *)
Lemma compactLoop_filter (S : SemaDecl) (l : list TypeAliasPtr) :
  forall fuel i Next vec,
  (Next <= i)%nat -> length vec = length l ->
  take Next vec = List.filter (fun p => negb (isResolved S p)) (take i l) ->
  drop i vec = drop i l ->
  (length l <= fuel + i)%nat ->
  take (snd (compactLoop S fuel i Next vec)) (fst (compactLoop S fuel i Next vec)) =
    List.filter (fun p => negb (isResolved S p)) l.
Proof.
  induction fuel as [| fuel IH]; intros i Next vec Hle Hlen Htake Hdrop Hfuel; cbn.
  - rewrite Htake, take_ge by lia. reflexivity.
  - destruct (vec !! i) as [Decl |] eqn:Hi.
    + assert (Hl : l !! i = Some Decl).
      { rewrite <- (Nat.add_0_r i), <- lookup_drop, <- Hdrop, lookup_drop, Nat.add_0_r.
        exact Hi. }
      assert (Hi_lt : (i < length vec)%nat) by (apply lookup_lt_Some in Hi; exact Hi).
      assert (HdropS : forall v, drop i v = drop i l -> drop (Datatypes.S i) v = drop (Datatypes.S i) l).
      { intros v Hv. rewrite <- (Nat.add_1_r i), <- !drop_drop, Hv. reflexivity. }
      destruct (isResolved S Decl) eqn:Hr.
      * apply IH; try lia; auto.
        rewrite (take_S_r _ _ _ Hl), List.filter_app, Htake. cbn. rewrite Hr, app_nil_r.
        reflexivity.
      * apply IH.
        -- lia.
        -- rewrite length_insert. exact Hlen.
        -- rewrite (take_S_r _ _ Decl) by (apply list_lookup_insert_eq; lia).
           rewrite take_insert_ge by lia.
           rewrite (take_S_r _ _ _ Hl), List.filter_app, Htake. cbn. rewrite Hr.
           reflexivity.
        -- rewrite drop_insert_lt by lia. apply HdropS, Hdrop.
        -- lia.
    + apply lookup_ge_None in Hi.
      cbn. rewrite Htake, take_ge by lia. reflexivity.
Qed.

Lemma handleEnd_list {Item} (S : SemaDecl) (Items : list Item) :
  UnresolvedTypesForParser (fst (handleEndOfTranslationUnit S Items)) =
    List.filter (fun p => negb (isResolved S p)) (UnresolvedTypeList S).
Proof.
  unfold handleEndOfTranslationUnit.
  pose proof (compactLoop_filter S (UnresolvedTypeList S) (length (UnresolvedTypeList S))
                0 0 (UnresolvedTypeList S)) as H.
  destruct (compactLoop S _ 0 0 _) as [vec Next]. cbn in *. apply H; auto; lia.
Qed.

Lemma handleEnd_state {Item} (S : SemaDecl) (Items : list Item) :
  let S1 := snd (handleEndOfTranslationUnit S Items) in
  UnresolvedTypeList S1 = UnresolvedTypesForParser (fst (handleEndOfTranslationUnit S Items)) /\
  Body (fst (handleEndOfTranslationUnit S Items)) = Items /\
  TypeAliases S1 = TypeAliases S /\ UnresolvedTypes S1 = UnresolvedTypes S /\
  TypeScopeHT S1 = TypeScopeHT S /\ ValueScopeHT S1 = ValueScopeHT S /\ Diags S1 = Diags S.
Proof.
  unfold handleEndOfTranslationUnit.
  destruct (compactLoop S _ 0 0 _) as [vec Next]. cbn. repeat split.
Qed.

Lemma filter_idem {A} (f : A -> bool) (l : list A) :
  List.filter f (List.filter f l) = List.filter f l.
Proof.
  induction l as [| x l IH]; cbn; [reflexivity |].
  destruct (f x) eqn:E; cbn; [rewrite E, IH |]; exact IH || reflexivity.
Qed.

(** At the end of the translation unit the list of unresolved types is
    compacted to the decls that are still unresolved, in their original
    order; that list is what the parser is handed, the body is the given
    items, and the decls, tables and diagnostics are left alone. *)
Theorem handleEndOfTranslationUnit_unresolved_list {Item} (S : SemaDecl) (Items : list Item) :
  let TU := fst (handleEndOfTranslationUnit S Items) in
  let S1 := snd (handleEndOfTranslationUnit S Items) in
  UnresolvedTypesForParser TU =
    List.filter (fun p => negb (isResolved S p)) (UnresolvedTypeList S) /\
  UnresolvedTypeList S1 = UnresolvedTypesForParser TU /\
  Body TU = Items /\
  TypeAliases S1 = TypeAliases S /\ UnresolvedTypes S1 = UnresolvedTypes S /\
  Diags S1 = Diags S.
Proof.
  cbv zeta. rewrite handleEnd_list.
  destruct (handleEnd_state S Items) as (H1 & H2 & H3 & H4 & _ & _ & H5).
  rewrite H1, handleEnd_list. repeat split; assumption.
Qed.

(** Ending the translation unit a second time hands the parser the same
    list of unresolved types. *)
Theorem handleEndOfTranslationUnit_idempotent {Item} (S : SemaDecl) (Items Items' : list Item) :
  UnresolvedTypesForParser
    (fst (handleEndOfTranslationUnit (snd (handleEndOfTranslationUnit S Items)) Items')) =
  UnresolvedTypesForParser (fst (handleEndOfTranslationUnit S Items)).
Proof.
  rewrite !handleEnd_list.
  destruct (handleEnd_state S Items) as (H1 & _ & H3 & _).
  rewrite H1, handleEnd_list.
  assert (Hr : forall p, isResolved (snd (handleEndOfTranslationUnit S Items)) p = isResolved S p).
  { intros p. unfold isResolved. rewrite H3. reflexivity. }
  rewrite (List.filter_ext _ _ (fun p => f_equal negb (Hr p))). apply filter_idem.
Qed.

(** A type used before its definition and then defined at the top level is
    not handed to the parser as unresolved at the end of the translation
    unit. *)
Theorem completed_forward_reference_not_left_unresolved {Item} (S : SemaDecl) Name Loc Loc' Ty
    (Items : list Item) :
  htLookup (TypeScopeHT S) Name = None ->
  CurDepth S = 0%nat ->
  let p := fst (LookupTypeName S Name Loc) in
  let S2 := snd (ActOnTypeAlias (snd (LookupTypeName S Name Loc)) Loc' Name Ty) in
  ~ In p (UnresolvedTypesForParser (fst (handleEndOfTranslationUnit S2 Items))).
Proof.
  intros H Hd. cbv zeta. rewrite handleEnd_list, List.filter_In.
  intros [_ Hf].
  unfold LookupTypeName in Hf. rewrite H in Hf. cbn zeta in Hf.
  unfold ActOnTypeAlias in Hf. cbn [fst snd TypeScopeHT CurDepth TypeAliases] in Hf.
  rewrite htLookup_insertIntoScope_eq, Hd in Hf. cbn [Nat.eqb negb] in Hf.
  rewrite lookup_insert_eq in Hf. cbn in Hf.
  unfold isResolved in Hf. cbn in Hf. rewrite lookup_insert_eq in Hf. discriminate.
Qed.

(** A type used before its definition but defined only inside a nested
    scope is still handed to the parser as unresolved at the end of the
    translation unit. *)
Theorem nested_definition_leaves_forward_reference_unresolved {Item} (S : SemaDecl)
    Name Loc Loc' Ty (Items : list Item) :
  htLookup (TypeScopeHT S) Name = None ->
  CurDepth S <> 0%nat ->
  let p := fst (LookupTypeName S Name Loc) in
  let S2 := snd (ActOnTypeAlias (snd (LookupTypeName S Name Loc)) Loc' Name Ty) in
  In p (UnresolvedTypesForParser (fst (handleEndOfTranslationUnit S2 Items))).
Proof.
  intros H Hd. cbv zeta. rewrite handleEnd_list, List.filter_In.
  unfold LookupTypeName. rewrite H. cbn zeta.
  unfold ActOnTypeAlias. cbn [fst snd TypeScopeHT CurDepth TypeAliases].
  rewrite htLookup_insertIntoScope_eq.
  destruct (Nat.eqb_spec 0 (CurDepth S)) as [E | _]; [congruence |]. cbn.
  split.
  - apply in_or_app. right. left. reflexivity.
  - unfold isResolved. cbn. rewrite lookup_insert_ne by lia. rewrite lookup_insert_eq.
    reflexivity.
Qed.

(** Witnesses. *)

Local Open Scope nat_scope.

Lemma AddToScope_enters_decl_witness :
  (forall depth prev,
     htBegin (ValueScopeHT SemaExamples.semaOuterX) "x"%string = Some (depth, prev) ->
     depth <> CurDepth SemaExamples.semaOuterX) /\
  TopLevelMap (ValueScopeHT (AddToScope SemaExamples.semaOuterX (SemaExamples.declX 2 false 0 20)))
    !! "x"%string =
    Some [(1, (1, SemaExamples.declX 2 false 0 20)); (0, (0, SemaExamples.declX 1 true 0 10))] /\
  htBegin (ValueScopeHT (AddToScope SemaExamples.semaOuterX (SemaExamples.declX 2 false 0 20))) "x"%string
    = Some (1%nat, SemaExamples.declX 2 false 0 20) /\
  Diags (AddToScope SemaExamples.semaOuterX (SemaExamples.declX 2 false 0 20)) = [] /\
  LookupValueName (AddToScope SemaExamples.semaOuterX (SemaExamples.declX 2 false 0 20)) "x"%string =
    Some (SemaExamples.declX 2 false 0 20) /\
  (forall n, n <> "x"%string ->
     LookupValueName (AddToScope SemaExamples.semaOuterX (SemaExamples.declX 2 false 0 20)) n =
     LookupValueName SemaExamples.semaOuterX n).
Proof.
  assert (H : forall depth prev,
     htBegin (ValueScopeHT SemaExamples.semaOuterX) "x"%string = Some (depth, prev) ->
     depth <> CurDepth SemaExamples.semaOuterX).
  { intros depth prev E. vm_compute in E. injection E as E1 E2. subst. vm_compute. discriminate. }
  split; [exact H |].
  exact (AddToScope_enters_decl SemaExamples.semaOuterX (SemaExamples.declX 2 false 0 20) H).
Defined.

Lemma AddToScope_nested_redefinition_witness :
  htBegin (ValueScopeHT (AddToScope (SemaExamples.semaAtDepth 1) (SemaExamples.declX 1 true 0 10))) "x"%string
    = Some (1%nat, SemaExamples.declX 1 true 0 10) /\
  ValueScopeHT (AddToScope (AddToScope (SemaExamples.semaAtDepth 1) (SemaExamples.declX 1 true 0 10))
                  (SemaExamples.declX 2 false 0 20)) =
    ValueScopeHT (AddToScope (SemaExamples.semaAtDepth 1) (SemaExamples.declX 1 true 0 10)) /\
  Diags (AddToScope (AddToScope (SemaExamples.semaAtDepth 1) (SemaExamples.declX 1 true 0 10))
           (SemaExamples.declX 2 false 0 20)) =
    [] ++
    [{| diagKind := DError; diagLoc := 20%nat;
        diagMsg := "declaration conflicts with previous value" |};
     {| diagKind := DNote; diagLoc := 10%nat; diagMsg := "previous definition here" |}].
Proof.
  split; [vm_compute; reflexivity |].
  apply (AddToScope_nested_redefinition
           (AddToScope (SemaExamples.semaAtDepth 1) (SemaExamples.declX 1 true 0 10))
           (SemaExamples.declX 2 false 0 20) (SemaExamples.declX 1 true 0 10));
    vm_compute; [reflexivity | discriminate].
Defined.

Lemma AddToScope_toplevel_overload_witness :
  htBegin (ValueScopeHT (AddToScope (SemaExamples.semaAtDepth 0) (SemaExamples.declX 1 true 0 10))) "x"%string
    = Some (0%nat, SemaExamples.declX 1 true 0 10) /\
  ((5 <> 0)%Z ->
     ValueScopeHT (AddToScope (AddToScope (SemaExamples.semaAtDepth 0) (SemaExamples.declX 1 true 0 10))
                     (SemaExamples.declX 2 false 5 20)) =
       ValueScopeHT (AddToScope (SemaExamples.semaAtDepth 0) (SemaExamples.declX 1 true 0 10)) /\
     Diags (AddToScope (AddToScope (SemaExamples.semaAtDepth 0) (SemaExamples.declX 1 true 0 10))
              (SemaExamples.declX 2 false 5 20)) =
       [] ++
       [{| diagKind := DError; diagLoc := 20%nat;
           diagMsg := "infix precedence of functions in an overload set must match" |};
        {| diagKind := DNote; diagLoc := 10%nat; diagMsg := "previous declaration here" |}]) /\
  ((5 = 0)%Z ->
     Diags (AddToScope (AddToScope (SemaExamples.semaAtDepth 0) (SemaExamples.declX 1 true 0 10))
              (SemaExamples.declX 2 false 5 20)) = [] /\
     (exists chain,
        TopLevelMap (ValueScopeHT (AddToScope (SemaExamples.semaAtDepth 0)
                                     (SemaExamples.declX 1 true 0 10))) !! "x"%string = Some chain /\
        TopLevelMap (ValueScopeHT (AddToScope (AddToScope (SemaExamples.semaAtDepth 0)
                                                 (SemaExamples.declX 1 true 0 10))
                                     (SemaExamples.declX 2 false 5 20))) !! "x"%string =
          Some ((1%nat, (0%nat, SemaExamples.declX 2 false 5 20)) :: chain)) /\
     LookupValueName (AddToScope (AddToScope (SemaExamples.semaAtDepth 0)
                                    (SemaExamples.declX 1 true 0 10))
                        (SemaExamples.declX 2 false 5 20)) "x"%string = None).
Proof.
  split; [vm_compute; reflexivity |].
  apply (AddToScope_toplevel_overload
           (AddToScope (SemaExamples.semaAtDepth 0) (SemaExamples.declX 1 true 0 10))
           (SemaExamples.declX 2 false 5 20) (SemaExamples.declX 1 true 0 10));
    vm_compute; reflexivity.
Defined.

Lemma LookupTypeName_forward_reference_witness :
  htLookup (TypeScopeHT (SemaExamples.semaAtDepth 1)) "T"%string = None /\
  let p := fst (LookupTypeName (SemaExamples.semaAtDepth 1) "T"%string 3) in
  let S1 := snd (LookupTypeName (SemaExamples.semaAtDepth 1) "T"%string 3) in
  p = 100%nat /\
  TypeAliases S1 !! p = Some {| TypeAliasLoc := 3; taName := "T"%string; UnderlyingTy := None |} /\
  UnresolvedTypes S1 !! "T"%string = Some p /\
  UnresolvedTypeList S1 = [] ++ [p] /\
  TopLevelMap (TypeScopeHT S1) !! "T"%string = Some [(0, (0, p))] /\
  htLookup (TypeScopeHT S1) "T"%string = Some (0%nat, p) /\
  Diags S1 = [] /\
  (forall Loc', LookupTypeName S1 "T"%string Loc' = (p, S1)).
Proof.
  split; [reflexivity |].
  apply (LookupTypeName_forward_reference (SemaExamples.semaAtDepth 1) "T"%string 3). reflexivity.
Defined.

Lemma forward_reference_completed_at_top_level_witness :
  htLookup (TypeScopeHT (SemaExamples.semaAtDepth 0)) "T"%string = None /\
  CurDepth (SemaExamples.semaAtDepth 0) = 0%nat /\
  let p := fst (LookupTypeName (SemaExamples.semaAtDepth 0) "T"%string 3) in
  let S1 := snd (LookupTypeName (SemaExamples.semaAtDepth 0) "T"%string 3) in
  let q := fst (ActOnTypeAlias S1 5 "T"%string 7) in
  let S2 := snd (ActOnTypeAlias S1 5 "T"%string 7) in
  q = p /\
  TypeAliases S2 !! p = Some {| TypeAliasLoc := 5; taName := "T"%string; UnderlyingTy := Some 7%nat |} /\
  UnresolvedTypes S2 !! "T"%string = None /\
  UnresolvedTypeList S2 = [] ++ [p] /\
  Diags S2 = [] /\
  LookupTypeName S2 "T"%string 9 = (p, S2).
Proof.
  split; [reflexivity | split; [reflexivity |]].
  apply (forward_reference_completed_at_top_level (SemaExamples.semaAtDepth 0) "T"%string 3 5 9 7);
    reflexivity.
Defined.

Lemma forward_reference_not_completed_in_nested_scope_witness :
  htLookup (TypeScopeHT (SemaExamples.semaAtDepth 1)) "T"%string = None /\
  CurDepth (SemaExamples.semaAtDepth 1) <> 0%nat /\
  let p := fst (LookupTypeName (SemaExamples.semaAtDepth 1) "T"%string 3) in
  let S1 := snd (LookupTypeName (SemaExamples.semaAtDepth 1) "T"%string 3) in
  let q := fst (ActOnTypeAlias S1 5 "T"%string 7) in
  let S2 := snd (ActOnTypeAlias S1 5 "T"%string 7) in
  q <> p /\
  TypeAliases S2 !! p = Some {| TypeAliasLoc := 3; taName := "T"%string; UnderlyingTy := None |} /\
  TypeAliases S2 !! q = Some {| TypeAliasLoc := 5; taName := "T"%string; UnderlyingTy := Some 7%nat |} /\
  UnresolvedTypes S2 !! "T"%string = Some p /\
  UnresolvedTypeList S2 = [] ++ [p] /\
  Diags S2 = [] /\
  LookupTypeName S2 "T"%string 9 = (q, S2).
Proof.
  split; [reflexivity | split; [vm_compute; discriminate |]].
  apply (forward_reference_not_completed_in_nested_scope (SemaExamples.semaAtDepth 1) "T"%string 3 5 9 7);
    [reflexivity | vm_compute; discriminate].
Defined.

Lemma ActOnTypeAlias_redefinition_witness :
  let S := snd (ActOnTypeAlias (SemaExamples.semaAtDepth 1) 5 "T"%string 7) in
  (htLookup (TypeScopeHT S) "T"%string = Some (CurDepth S, 100%nat) /\
   TypeAliases S !! 100%nat = Some {| TypeAliasLoc := 5; taName := "T"%string; UnderlyingTy := Some 7%nat |}) /\
  fst (ActOnTypeAlias S 8 "T"%string 9) = 100%nat /\
  TypeAliases (snd (ActOnTypeAlias S 8 "T"%string 9)) = TypeAliases S /\
  TypeScopeHT (snd (ActOnTypeAlias S 8 "T"%string 9)) = TypeScopeHT S /\
  UnresolvedTypes (snd (ActOnTypeAlias S 8 "T"%string 9)) = UnresolvedTypes S /\
  Diags (snd (ActOnTypeAlias S 8 "T"%string 9)) =
    Diags S ++
    [{| diagKind := DError; diagLoc := 8%nat; diagMsg := "redefinition of type named '" ++ "T"%string ++ "'" |};
     {| diagKind := DWarning; diagLoc := 5%nat; diagMsg := "previous declaration here" |}].
Proof.
  cbv zeta. split; [split; vm_compute; reflexivity |].
  apply (ActOnTypeAlias_redefinition (snd (ActOnTypeAlias (SemaExamples.semaAtDepth 1) 5 "T"%string 7))
           8 "T"%string 9 100 {| TypeAliasLoc := 5; taName := "T"%string; UnderlyingTy := Some 7%nat |} 7);
    vm_compute; reflexivity.
Defined.

Lemma ActOnTypeAlias_new_name_witness :
  let S := snd (LookupTypeName (SemaExamples.semaAtDepth 1) "T"%string 3) in
  (forall d p, htLookup (TypeScopeHT S) "T"%string = Some (d, p) -> d <> CurDepth S) /\
  let p := fst (ActOnTypeAlias S 5 "T"%string 7) in
  let S1 := snd (ActOnTypeAlias S 5 "T"%string 7) in
  p = 101%nat /\
  TypeAliases S1 !! p = Some {| TypeAliasLoc := 5; taName := "T"%string; UnderlyingTy := Some 7%nat |} /\
  UnresolvedTypes S1 = UnresolvedTypes S /\
  TopLevelMap (TypeScopeHT S1) !! "T"%string = Some [(1, (1, p)); (0, (0, 100))] /\
  UnresolvedTypeList S1 = UnresolvedTypeList S /\
  Diags S1 = Diags S /\
  LookupTypeName S1 "T"%string 9 = (p, S1).
Proof.
  cbv zeta.
  assert (H : forall d p,
    htLookup (TypeScopeHT (snd (LookupTypeName (SemaExamples.semaAtDepth 1) "T"%string 3))) "T"%string = Some (d, p) ->
    d <> CurDepth (snd (LookupTypeName (SemaExamples.semaAtDepth 1) "T"%string 3))).
  { intros d p E. vm_compute in E. injection E as E1 E2. subst. vm_compute. discriminate. }
  split; [exact H |].
  exact (ActOnTypeAlias_new_name (snd (LookupTypeName (SemaExamples.semaAtDepth 1) "T"%string 3)) 5 9 "T"%string 7 H).
Defined.

Lemma completed_forward_reference_not_left_unresolved_witness :
  htLookup (TypeScopeHT (SemaExamples.semaAtDepth 0)) "T"%string = None /\
  CurDepth (SemaExamples.semaAtDepth 0) = 0%nat /\
  let p := fst (LookupTypeName (SemaExamples.semaAtDepth 0) "T"%string 3) in
  let S2 := snd (ActOnTypeAlias (snd (LookupTypeName (SemaExamples.semaAtDepth 0) "T"%string 3)) 5 "T"%string 7) in
  ~ In p (UnresolvedTypesForParser (fst (handleEndOfTranslationUnit S2 ([] : list nat)))).
Proof.
  split; [reflexivity | split; [reflexivity |]].
  apply (completed_forward_reference_not_left_unresolved (SemaExamples.semaAtDepth 0) "T"%string 3 5 7 []);
    reflexivity.
Defined.

Lemma nested_definition_leaves_forward_reference_unresolved_witness :
  htLookup (TypeScopeHT (SemaExamples.semaAtDepth 1)) "T"%string = None /\
  CurDepth (SemaExamples.semaAtDepth 1) <> 0%nat /\
  let p := fst (LookupTypeName (SemaExamples.semaAtDepth 1) "T"%string 3) in
  let S2 := snd (ActOnTypeAlias (snd (LookupTypeName (SemaExamples.semaAtDepth 1) "T"%string 3)) 5 "T"%string 7) in
  In p (UnresolvedTypesForParser (fst (handleEndOfTranslationUnit S2 ([] : list nat)))).
Proof.
  split; [reflexivity | split; [vm_compute; discriminate |]].
  apply (nested_definition_leaves_forward_reference_unresolved (SemaExamples.semaAtDepth 1)
           "T"%string 3 5 7 ([] : list nat));
    [reflexivity | vm_compute; discriminate].
Defined.

End SemaFacts.

(* ------------------------------------------------------------------ *)
(** ** Further properties: NonFixedTypeInfo *)

(** [isDynamicallyPackedInline] emits a metadata reference for [T], a load
    of its value witness table and a load of the is-inline flag; at run
    time the result is 1 exactly when [T]'s descriptor says the value is
    stored inline and 0 otherwise, and memory, heap, stack pointer and heap
    break are unchanged. *)
Theorem isDynamicallyPackedInline_reads_flag (T : CanType) (s : IRGenFunction) igm desc st :
  newCode (isDynamicallyPackedInline T) s =
    [IMetadataRef (nextValue s) T; IVWTRef (S (nextValue s)) (nextValue s);
     ILoadField (S (S (nextValue s))) (S (nextValue s)) FIsInline] /\
  exists st',
    exec igm desc (newCode (isDynamicallyPackedInline T) s) st = Some st' /\
    getWord st' (fst (isDynamicallyPackedInline T s)) =
      Some (if isInline (desc T) then 1 else 0) /\
    mem st' = mem st /\ heap st' = heap st /\ sp st' = sp st /\ brk st' = brk st.
Proof.
  destruct (query_reads_field T s FIsInline) as [Hc Hr]. exact (conj Hc (Hr igm desc st)).
Qed.

(** [allocateStack] followed by [deallocateStack] on its buffer and the same
    type gives the heap back as it was, whether the value was stored inline
    or spilled to a fresh heap cell (the witnesses modelled from the spec),
    provided no heap cell already sits at the heap break. *)
Theorem allocate_deallocate_restores_heap ti T name s desc st :
  0 < FixedBufferAlignment (IGM s) ->
  heap st !! brk st = None ->
  let ca := fst (allocateStack ti T name s) in
  let s1 := snd (allocateStack ti T name s) in
  exists st1 st2,
    exec (IGM s) desc (newCode (allocateStack ti T name) s) st = Some st1 /\
    exec (IGM s) desc (newCode (deallocateStack (containerBuf ca) T) s1) st1 = Some st2 /\
    heap st2 = heap st.
Proof.
  intros HA Hfree ca s1.
  pose proof (exec_allocateStack ti T name s desc st HA) as Hx. cbv zeta in Hx.
  destruct (alloc_dealloc_run ti T name s desc st HA)
    as (st1 & st2 & b & p & H1 & H2 & _ & _ & _ & _ & Hin & Hout).
  exists st1, st2. split; [exact H1 | split; [exact H2 |]].
  rewrite H1 in Hx. unfold allocateBufferWitness in Hx.
  destruct (fitsInFixedBuffer (IGM s) (desc T)) eqn:Hfit.
  - destruct (Hin eq_refl) as (_ & E1 & E2). congruence.
  - destruct (Hout eq_refl) as (-> & _ & _ & E2). rewrite E2.
    unfold heapAlloc in Hx. cbn in Hx. injection Hx as ->. cbn.
    apply delete_insert_id. exact Hfree.
Qed.

(** Witness: a five-word type, spilled to the heap. *)
Lemma allocate_deallocate_restores_heap_witness :
  (0 < FixedBufferAlignment (IGM function64) /\ heap initialState !! brk initialState = None) /\
  let ca := fst (allocateStack opaqueTypeInfo 1%nat "tmp" function64) in
  let s1 := snd (allocateStack opaqueTypeInfo 1%nat "tmp" function64) in
  exists st1 st2,
    exec (IGM function64) exampleDescriptors (newCode (allocateStack opaqueTypeInfo 1%nat "tmp") function64) initialState = Some st1 /\
    exec (IGM function64) exampleDescriptors (newCode (deallocateStack (containerBuf ca) 1%nat) s1) st1 = Some st2 /\
    heap st2 = heap initialState.
Proof.
  split; [split; [cbn [function64 module64 IGM FixedBufferAlignment]; lia | reflexivity] |].
  apply (allocate_deallocate_restores_heap opaqueTypeInfo 1%nat "tmp" function64
           exampleDescriptors initialState);
    [cbn [function64 module64 IGM FixedBufferAlignment]; lia | reflexivity].
Defined.
